(** * The Object binding layer of v8go (object.go)

    A shallow embedding of [object.go]: the methods of [*Object] and
    [coerceValue], over an abstract engine reached through the cgo
    boundary.

    Conventions of the embedding.
    - A C pointer ([C.ValuePtr], the result of [C.CString]) is an address
      in [N]; [0] is the null pointer.
    - A Go pointer that the code tests or produces ([*Value] out of
      [coerceValue], [o.ctx]) is an [option]; dereferencing [None] panics.
      The receiver [o *Object], its embedded [*Value], and a [*Symbol] key
      are live handles; where a nil key matters it is said so.
    - A Go function runs in a world (engine state, C heap, log of boundary
      calls) and either returns or panics; [defer] runs on both exits.
    - A [(T, error)] result is a pair of options, [nil] being [None]. *)

From Stdlib Require Import ZArith NArith List String Ascii Bool Lia.
From Stdlib Require Import DecimalString.
Import ListNotations.

Local Open Scope string_scope.
Local Open Scope Z_scope.

(** ** Handles *)

Definition ValuePtr := N.
Definition Isolate := N.
Bind Scope N_scope with ValuePtr Isolate.

Record Context := mkContext { ctx_id : N; iso : Isolate }.

(** [type Value struct { ptr C.ValuePtr; ctx *Context }] *)
Record Value := mkValue { ptr : ValuePtr; ctx : option Context }.

(** [type Object struct { *Value }], and the sibling wrappers. *)
Record Object := mkObject { obj_value : Value }.
Record Symbol := mkSymbol { sym_value : Value }.
Record Function := mkFunction { fn_value : Value }.

(** ** Errors and boundary results *)

(** The engine's representation of a thrown value. *)
Definition RtnError := string.

Inductive error :=
| errorString (msg : string)      (* fmt.Errorf / errors.New *)
| JSError (e : RtnError)          (* an engine exception *)
| NotAFunction.                   (* a property that is not callable *)

(** [C.RtnValue]: a value pointer, null when the engine reports an error. *)
Record RtnValue := mkRtn { rtn_value : ValuePtr; rtn_error : RtnError }.

Inductive PanicVal :=
| NilDereference
| BadCString (p : N)
| PanicError (e : error).

Inductive Outcome (A : Type) :=
| Ret (a : A)
| Panic (p : PanicVal).
Arguments Ret {A} a.
Arguments Panic {A} p.

(** ** Host values: what an [interface{}] argument can hold *)

(** The [Valuer] interface: [value() *Value].  [go_type] is the name [%T]
    prints for the implementing type. *)
Class Valuer (T : Type) := { value : T -> option Value; go_type : string }.

(** Modelled from the spec: the implementations of [value()] (value.go,
    symbol.go and function.go are absent).  Section 4.1: a Value-producing
    type yields its existing underlying Value.  [*Object] has the method
    through the [*Value] it embeds. *)
#[export] Instance Valuer_Value : Valuer (option Value) :=
  {| value := fun v => v; go_type := "*v8go.Value" |}.
#[export] Instance Valuer_Object : Valuer Object :=
  {| value := fun o => Some (obj_value o); go_type := "*v8go.Object" |}.
#[export] Instance Valuer_Symbol : Valuer Symbol :=
  {| value := fun s => Some (sym_value s); go_type := "*v8go.Symbol" |}.
#[export] Instance Valuer_Function : Valuer Function :=
  {| value := fun f => Some (fn_value f); go_type := "*v8go.Function" |}.

(** A float64 is carried by its 64 bits; the code never inspects it. *)
Inductive GoVal :=
| GNil
| GString (s : string)
| GInt32 (n : Z)
| GUint32 (n : Z)
| GInt64 (n : Z)
| GUint64 (n : Z)
| GFloat64 (bits : Z)
| GBool (b : bool)
| GBigInt (p : option Z)
| GValuer {T : Type} (inst : Valuer T) (x : T)
| GOther (tname : string).

(** What [%T] prints. *)
Definition typeName (val : GoVal) : string :=
  match val with
  | GNil => "<nil>"
  | GString _ => "string"
  | GInt32 _ => "int32"
  | GUint32 _ => "uint32"
  | GInt64 _ => "int64"
  | GUint64 _ => "uint64"
  | GFloat64 _ => "float64"
  | GBool _ => "bool"
  | GBigInt _ => "*big.Int"
  | @GValuer T inst _ => @go_type T inst
  | GOther tname => tname
  end.

Definition is_primitive (val : GoVal) : bool :=
  match val with
  | GString _ | GInt32 _ | GUint32 _ | GInt64 _ | GUint64 _
  | GFloat64 _ | GBool _ | GBigInt _ => true
  | _ => false
  end.

Definition is_valuer (val : GoVal) : bool :=
  match val with
  | GValuer _ _ => true
  | _ => false
  end.

(** ** Integer conversions at the boundary *)

Definition uint32_wrap (z : Z) : Z := z mod 2 ^ 32.

(** [C.int(idx)] for [idx uint32]: the same 32 bits read as signed. *)
Definition C_int (idx : Z) : Z :=
  let m := uint32_wrap idx in
  if m <? 2 ^ 31 then m else m - 2 ^ 32.

(** [C.uint32_t(idx)]. *)
Definition C_uint32_t (idx : Z) : Z := uint32_wrap idx.

(** [%v] of an unsigned integer. *)
Definition fmt_uint (z : Z) : string := NilZero.string_of_uint (N.to_uint (Z.to_N z)).

(** ** The engine behind the boundary

    Each entry point is a function of the engine state.  The set family
    hands nothing back to Go; the [bool] is the engine's own verdict on the
    store, kept so that engine-side failure can be spoken of.  [NewValue],
    [ValueIsFunction] and [FunctionCall] stand for the parts of value.go
    and function.go that object.go calls into. *)
Record Boundary (E : Type) := mkBoundary {
  NewValue : Isolate -> GoVal -> E -> (option Value * option error) * E;
  ObjectGet : ValuePtr -> string -> E -> RtnValue * E;
  ObjectGetAnyKey : ValuePtr -> ValuePtr -> E -> RtnValue * E;
  ObjectGetIdx : ValuePtr -> Z -> E -> RtnValue * E;
  ObjectSet : ValuePtr -> string -> ValuePtr -> E -> bool * E;
  ObjectSetAnyKey : ValuePtr -> ValuePtr -> ValuePtr -> E -> bool * E;
  ObjectSetIdx : ValuePtr -> Z -> ValuePtr -> E -> bool * E;
  ObjectSetInternalField : ValuePtr -> Z -> ValuePtr -> E -> Z * E;
  ObjectInternalFieldCount : ValuePtr -> E -> Z * E;
  ObjectGetInternalField : ValuePtr -> Z -> E -> RtnValue * E;
  ObjectHas : ValuePtr -> string -> E -> Z * E;
  ObjectHasAnyKey : ValuePtr -> ValuePtr -> E -> Z * E;
  ObjectHasIdx : ValuePtr -> Z -> E -> Z * E;
  ObjectDelete : ValuePtr -> string -> E -> Z * E;
  ObjectDeleteAnyKey : ValuePtr -> ValuePtr -> E -> Z * E;
  ObjectDeleteIdx : ValuePtr -> Z -> E -> Z * E;
  ObjectGetPrototype : ValuePtr -> E -> RtnValue * E;
  ObjectSetPrototype : ValuePtr -> ValuePtr -> E -> E;
  ValueIsFunction : ValuePtr -> E -> bool;
  FunctionCall : ValuePtr -> ValuePtr -> list ValuePtr -> E -> RtnValue * E
}.

(** The log of calls that crossed into the engine. *)
Inductive Call :=
| CallNewValue (i : Isolate) (val : GoVal)
| CallObjectGet (o : ValuePtr) (key : string)
| CallObjectGetAnyKey (o k : ValuePtr)
| CallObjectGetIdx (o : ValuePtr) (idx : Z)
| CallObjectSet (o : ValuePtr) (key : string) (v : ValuePtr) (stored : bool)
| CallObjectSetAnyKey (o k v : ValuePtr) (stored : bool)
| CallObjectSetIdx (o : ValuePtr) (idx : Z) (v : ValuePtr) (stored : bool)
| CallObjectSetInternalField (o : ValuePtr) (idx : Z) (v : ValuePtr)
| CallObjectInternalFieldCount (o : ValuePtr)
| CallObjectGetInternalField (o : ValuePtr) (idx : Z)
| CallObjectHas (o : ValuePtr) (key : string)
| CallObjectHasAnyKey (o k : ValuePtr)
| CallObjectHasIdx (o : ValuePtr) (idx : Z)
| CallObjectDelete (o : ValuePtr) (key : string)
| CallObjectDeleteAnyKey (o k : ValuePtr)
| CallObjectDeleteIdx (o : ValuePtr) (idx : Z)
| CallObjectGetPrototype (o : ValuePtr)
| CallObjectSetPrototype (o p : ValuePtr)
| CallFunctionCall (f recv : ValuePtr) (args : list ValuePtr).

Definition is_set_call (c : Call) : bool :=
  match c with
  | CallObjectSet _ _ _ _ | CallObjectSetAnyKey _ _ _ _
  | CallObjectSetIdx _ _ _ _ | CallObjectSetInternalField _ _ _ => true
  | _ => false
  end.

Definition is_NewValue_call (c : Call) : bool :=
  match c with
  | CallNewValue _ _ => true
  | _ => false
  end.

(** ** The C heap of transient key buffers *)

Definition CHeap := list (N * string).

Definition heap_top (h : CHeap) : N := fold_right (fun b m => N.max (fst b) m) 0%N h.

(** malloc: an address above every live one, never null. *)
Definition fresh (h : CHeap) : N := N.succ (heap_top h).

Fixpoint heap_lookup (p : N) (h : CHeap) : option string :=
  match h with
  | [] => None
  | (a, s) :: h' => if (a =? p)%N then Some s else heap_lookup p h'
  end.

Definition heap_free (p : N) (h : CHeap) : CHeap :=
  filter (fun b => negb (fst b =? p)%N) h.

Definition NUL : ascii := Ascii.zero.

(** What a reader of a [char*] sees: the bytes before the first NUL. *)
Fixpoint c_str (s : string) : string :=
  match s with
  | EmptyString => EmptyString
  | String c s' => if Ascii.eqb c NUL then EmptyString else String c (c_str s')
  end.

(** ** Worlds and the monad of Go functions *)

Section World.

Context {E : Type}.

Record World := mkWorld { engine : E; cheap : CHeap; calls : list Call }.

Definition M (A : Type) : Type := World -> Outcome A * World.

Definition ret {A} (a : A) : M A := fun w => (Ret a, w).

Definition panic {A} (p : PanicVal) : M A := fun w => (Panic p, w).

Definition bind {A B} (m : M A) (k : A -> M B) : M B :=
  fun w =>
    match m w with
    | (Ret a, w') => k a w'
    | (Panic p, w') => (Panic p, w')
    end.

(** [defer cleanup] followed by [body]: the cleanup runs when the function
    leaves, by return or by panic. *)
Definition defer {A} (cleanup : M unit) (body : M A) : M A :=
  fun w =>
    let (r, w1) := body w in
    (r, snd (cleanup w1)).

(** Dereferencing a Go pointer. *)
Definition deref {A} (p : option A) : M A :=
  match p with
  | Some a => ret a
  | None => panic NilDereference
  end.

(** [C.CString(s)]: a fresh buffer holding the bytes of [s] and a NUL. *)
Definition CString (s : string) : M N :=
  fun w =>
    let a := fresh (cheap w) in
    (Ret a, mkWorld (engine w) ((a, (s ++ String NUL EmptyString)%string) :: cheap w) (calls w)).

(** [C.free(unsafe.Pointer(p))]. *)
Definition free (p : N) : M unit :=
  fun w => (Ret tt, mkWorld (engine w) (heap_free p (cheap w)) (calls w)).

(** The engine reading a key through its [char*]. *)
Definition read_cstr (p : N) : M string :=
  fun w =>
    match heap_lookup p (cheap w) with
    | Some s => (Ret (c_str s), w)
    | None => (Panic (BadCString p), w)
    end.

(** One boundary call: the engine steps and the call is logged. *)
Definition boundary {A} (f : E -> A * E) (log : A -> Call) : M A :=
  fun w =>
    let (a, e') := f (engine w) in
    (Ret a, mkWorld e' (cheap w) (calls w ++ [log a])).

End World.

Arguments World E : clear implicits.
Arguments M E A : clear implicits.

Declare Scope go_scope.
Delimit Scope go_scope with go.
Notation "x <- m ;; k" := (bind m (fun x => k))
  (at level 61, m at next level, right associativity) : go_scope.
Notation "' pat <- m ;; k" := (bind m (fun x => match x with pat => k end))
  (at level 61, pat pattern, m at next level, right associativity) : go_scope.
Notation "m ;;; k" := (bind m (fun _ => k))
  (at level 61, right associativity) : go_scope.

Local Open Scope go_scope.

(** A value behind the [Valuer] interface, as [MethodCall] takes them. *)
Record AnyValuer := mkAny { av_type : Type; av_inst : Valuer av_type; av_val : av_type }.

Definition av_value (a : AnyValuer) : option Value := @value _ (av_inst a) (av_val a).

(** ** object.go *)

Section ObjectGo.

Context {E : Type} (eng : Boundary E).

Definition optr (o : Object) : ValuePtr := ptr (obj_value o).
Definition octx (o : Object) : option Context := ctx (obj_value o).
Definition sptr (s : Symbol) : ValuePtr := ptr (sym_value s).

(** *** The boundary as the Go code calls it *)

Definition C_ObjectGet (o : ValuePtr) (ckey : N) : M E RtnValue :=
  key <- read_cstr ckey ;;
  boundary (ObjectGet E eng o key) (fun _ => CallObjectGet o key).

Definition C_ObjectGetAnyKey (o k : ValuePtr) : M E RtnValue :=
  boundary (ObjectGetAnyKey E eng o k) (fun _ => CallObjectGetAnyKey o k).

Definition C_ObjectGetIdx (o : ValuePtr) (idx : Z) : M E RtnValue :=
  boundary (ObjectGetIdx E eng o idx) (fun _ => CallObjectGetIdx o idx).

Definition C_ObjectSet (o : ValuePtr) (ckey : N) (v : ValuePtr) : M E unit :=
  key <- read_cstr ckey ;;
  boundary (ObjectSet E eng o key v) (CallObjectSet o key v) ;;;
  ret tt.

Definition C_ObjectSetAnyKey (o k v : ValuePtr) : M E unit :=
  boundary (ObjectSetAnyKey E eng o k v) (CallObjectSetAnyKey o k v) ;;;
  ret tt.

Definition C_ObjectSetIdx (o : ValuePtr) (idx : Z) (v : ValuePtr) : M E unit :=
  boundary (ObjectSetIdx E eng o idx v) (CallObjectSetIdx o idx v) ;;;
  ret tt.

Definition C_ObjectSetInternalField (o : ValuePtr) (idx : Z) (v : ValuePtr) : M E Z :=
  boundary (ObjectSetInternalField E eng o idx v)
           (fun _ => CallObjectSetInternalField o idx v).

Definition C_ObjectInternalFieldCount (o : ValuePtr) : M E Z :=
  boundary (ObjectInternalFieldCount E eng o) (fun _ => CallObjectInternalFieldCount o).

Definition C_ObjectGetInternalField (o : ValuePtr) (idx : Z) : M E RtnValue :=
  boundary (ObjectGetInternalField E eng o idx) (fun _ => CallObjectGetInternalField o idx).

Definition C_ObjectHas (o : ValuePtr) (ckey : N) : M E Z :=
  key <- read_cstr ckey ;;
  boundary (ObjectHas E eng o key) (fun _ => CallObjectHas o key).

Definition C_ObjectHasAnyKey (o k : ValuePtr) : M E Z :=
  boundary (ObjectHasAnyKey E eng o k) (fun _ => CallObjectHasAnyKey o k).

Definition C_ObjectHasIdx (o : ValuePtr) (idx : Z) : M E Z :=
  boundary (ObjectHasIdx E eng o idx) (fun _ => CallObjectHasIdx o idx).

Definition C_ObjectDelete (o : ValuePtr) (ckey : N) : M E Z :=
  key <- read_cstr ckey ;;
  boundary (ObjectDelete E eng o key) (fun _ => CallObjectDelete o key).

Definition C_ObjectDeleteAnyKey (o k : ValuePtr) : M E Z :=
  boundary (ObjectDeleteAnyKey E eng o k) (fun _ => CallObjectDeleteAnyKey o k).

Definition C_ObjectDeleteIdx (o : ValuePtr) (idx : Z) : M E Z :=
  boundary (ObjectDeleteIdx E eng o idx) (fun _ => CallObjectDeleteIdx o idx).

Definition C_ObjectGetPrototype (o : ValuePtr) : M E RtnValue :=
  boundary (ObjectGetPrototype E eng o) (fun _ => CallObjectGetPrototype o).

Definition C_ObjectSetPrototype (o p : ValuePtr) : M E unit :=
  boundary (fun e => (tt, ObjectSetPrototype E eng o p e)) (fun _ => CallObjectSetPrototype o p).

Definition C_FunctionCall (f recv : ValuePtr) (args : list ValuePtr) : M E RtnValue :=
  boundary (FunctionCall E eng f recv args) (fun _ => CallFunctionCall f recv args).

(** [NewValue(iso, v)] of value.go, taken as given. *)
Definition call_NewValue (i : Isolate) (val : GoVal) : M E (option Value * option error) :=
  boundary (NewValue E eng i val) (fun _ => CallNewValue i val).

(** *** Helpers of value.go, errors.go and function.go *)

(** Modelled from the spec: [newJSError] (errors.go is absent).  Section 7:
    a JSError carries the thrown value's representation. *)
Definition newJSError (e : RtnError) : error := JSError e.

(** Modelled from the spec: [valueResult] (value.go is absent).  Sections 2
    and 9: the shared step that wraps a boundary result into a
    Value-or-error, the Value tagged with the context it is given; it
    follows the null test that [GetInternalField] writes out. *)
Definition valueResult (c : option Context) (rtn : RtnValue)
  : option Value * option error :=
  if (rtn_value rtn =? 0)%N
  then (None, Some (newJSError (rtn_error rtn)))
  else (Some (mkValue (rtn_value rtn) c), None).

(** Modelled from the spec: [Value.AsFunction] (value.go is absent).
    Section 4.5, step 2: the Value must be callable; if not, the result is
    a NotAFunction-kind error. *)
Definition AsFunction (v : Value) : M E (option Function * option error) :=
  fun w =>
    if ValueIsFunction E eng (ptr v) (engine w)
    then (Ret (Some (mkFunction v), None), w)
    else (Ret (None, Some NotAFunction), w).

Fixpoint arg_ptrs (args : list AnyValuer) : M E (list ValuePtr) :=
  match args with
  | [] => ret []
  | a :: rest =>
      v <- deref (av_value a) ;;
      ps <- arg_ptrs rest ;;
      ret (ptr v :: ps)
  end.

(** Modelled from the spec: [Function.Call] (function.go is absent).
    Section 4.5, steps 3 and 4: the function is invoked with the receiver
    bound as "this" and the arguments' Values; the result is the return
    Value, or the error raised during the invocation. *)
Definition Function_Call (fn : Function) (recv : AnyValuer) (args : list AnyValuer)
  : M E (option Value * option error) :=
  ps <- arg_ptrs args ;;
  r <- deref (av_value recv) ;;
  rtn <- C_FunctionCall (ptr (fn_value fn)) (ptr r) ps ;;
  ret (valueResult (ctx (fn_value fn)) rtn).

(** *** The functions of object.go *)

Definition unsupported (tname : string) : error :=
  errorString ("v8go: unsupported object property type `" ++ tname ++ "`").

Definition coerceValue (i : Isolate) (val : GoVal) : M E (option Value * option error) :=
  match val with
  | GString _ | GInt32 _ | GUint32 _ | GInt64 _ | GUint64 _
  | GFloat64 _ | GBool _ | GBigInt _ =>
      (* the error of NewValue is dropped *)
      r <- call_NewValue i val ;;
      ret (fst r, None)
  | GValuer inst v => ret (value v, None)
  | _ => ret (None, Some (unsupported (typeName val)))
  end.

Definition Object_MethodCall (o : Object) (methodName : string) (args : list AnyValuer)
  : M E (option Value * option error) :=
  ckey <- CString methodName ;;
  defer (free ckey)
    (getRtn <- C_ObjectGet (optr o) ckey ;;
     let (prop, err) := valueResult (octx o) getRtn in
     match err with
     | Some e => ret (None, Some e)
     | None =>
         p <- deref prop ;;
         r <- AsFunction p ;;
         match snd r with
         | Some e => ret (None, Some e)
         | None =>
             fn <- deref (fst r) ;;
             Function_Call fn (mkAny Object Valuer_Object o) args
         end
     end).

Definition Object_Set (o : Object) (key : string) (val : GoVal) : M E (option error) :=
  c <- deref (octx o) ;;
  r <- coerceValue (iso c) val ;;
  match snd r with
  | Some e => ret (Some e)
  | None =>
      ckey <- CString key ;;
      defer (free ckey)
        (v <- deref (fst r) ;;
         C_ObjectSet (optr o) ckey (ptr v) ;;;
         ret None)
  end.

Definition Object_SetSymbol (o : Object) (key : Symbol) (val : GoVal) : M E (option error) :=
  c <- deref (octx o) ;;
  r <- coerceValue (iso c) val ;;
  match snd r with
  | Some e => ret (Some e)
  | None =>
      v <- deref (fst r) ;;
      C_ObjectSetAnyKey (optr o) (sptr key) (ptr v) ;;;
      ret None
  end.

Definition Object_SetIdx (o : Object) (idx : Z) (val : GoVal) : M E (option error) :=
  c <- deref (octx o) ;;
  r <- coerceValue (iso c) val ;;
  match snd r with
  | Some e => ret (Some e)
  | None =>
      v <- deref (fst r) ;;
      C_ObjectSetIdx (optr o) (C_uint32_t idx) (ptr v) ;;;
      ret None
  end.

Definition Object_InternalFieldCount (o : Object) : M E Z :=
  count <- C_ObjectInternalFieldCount (optr o) ;;
  ret (uint32_wrap count).

Definition out_of_range (idx count : Z) : error :=
  errorString ("index out of range [" ++ fmt_uint idx ++ "] with length " ++ fmt_uint count).

Definition Object_SetInternalField (o : Object) (idx : Z) (val : GoVal) : M E (option error) :=
  c <- deref (octx o) ;;
  r <- coerceValue (iso c) val ;;
  match snd r with
  | Some e => ret (Some e)
  | None =>
      v <- deref (fst r) ;;
      inserted <- C_ObjectSetInternalField (optr o) (C_int idx) (ptr v) ;;
      if inserted =? 0
      then count <- Object_InternalFieldCount o ;;
           panic (PanicError (out_of_range idx count))
      else ret None
  end.

Definition Object_Get (o : Object) (key : string) : M E (option Value * option error) :=
  ckey <- CString key ;;
  defer (free ckey)
    (rtn <- C_ObjectGet (optr o) ckey ;;
     ret (valueResult (octx o) rtn)).

Definition Object_GetSymbol (o : Object) (key : Symbol) : M E (option Value * option error) :=
  rtn <- C_ObjectGetAnyKey (optr o) (sptr key) ;;
  ret (valueResult (octx o) rtn).

Definition Object_GetInternalField (o : Object) (idx : Z) : M E Value :=
  rtn <- C_ObjectGetInternalField (optr o) (C_int idx) ;;
  if (rtn_value rtn =? 0)%N
  then panic (PanicError (newJSError (rtn_error rtn)))
  else ret (mkValue (rtn_value rtn) (octx o)).

Definition Object_GetIdx (o : Object) (idx : Z) : M E (option Value * option error) :=
  rtn <- C_ObjectGetIdx (optr o) (C_uint32_t idx) ;;
  ret (valueResult (octx o) rtn).

Definition Object_Has (o : Object) (key : string) : M E bool :=
  ckey <- CString key ;;
  defer (free ckey)
    (r <- C_ObjectHas (optr o) ckey ;;
     ret (negb (r =? 0))).

Definition Object_HasSymbol (o : Object) (key : Symbol) : M E bool :=
  r <- C_ObjectHasAnyKey (optr o) (sptr key) ;;
  ret (negb (r =? 0)).

Definition Object_HasIdx (o : Object) (idx : Z) : M E bool :=
  r <- C_ObjectHasIdx (optr o) (C_uint32_t idx) ;;
  ret (negb (r =? 0)).

Definition Object_Delete (o : Object) (key : string) : M E bool :=
  ckey <- CString key ;;
  defer (free ckey)
    (r <- C_ObjectDelete (optr o) ckey ;;
     ret (negb (r =? 0))).

Definition Object_DeleteSymbol (o : Object) (key : Symbol) : M E bool :=
  r <- C_ObjectDeleteAnyKey (optr o) (sptr key) ;;
  ret (negb (r =? 0)).

Definition Object_DeleteIdx (o : Object) (idx : Z) : M E bool :=
  r <- C_ObjectDeleteIdx (optr o) (C_uint32_t idx) ;;
  ret (negb (r =? 0)).

Definition Object_GetPrototype (o : Object) : M E Object :=
  rtn <- C_ObjectGetPrototype (optr o) ;;
  ret (mkObject (mkValue (rtn_value rtn) (octx o))).

Definition Object_SetPrototype (o proto : Object) : M E unit :=
  C_ObjectSetPrototype (optr o) (optr proto).

End ObjectGo.

(** ** A small engine

    One engine to run the binding against: a heap of cells with named,
    symbol and index keyed properties, a prototype link, frozen objects,
    internal slots and functions.  Handle [1] is "undefined". *)

Module Toy.

Inductive key := KName (s : string) | KSym (p : ValuePtr) | KIdx (i : Z).

Definition key_eqb (a b : key) : bool :=
  match a, b with
  | KName s, KName t => String.eqb s t
  | KSym p, KSym q => N.eqb p q
  | KIdx i, KIdx j => Z.eqb i j
  | _, _ => false
  end.

Inductive body := ReturnThis | ReturnFirstArg | Throw (msg : string).

Inductive cell :=
| Undefined
| Prim (shape : string)
| Func (b : body)
| Obj (props : list (key * ValuePtr)) (proto : ValuePtr) (frozen : bool)
      (slots : list ValuePtr).

Definition heap := list (ValuePtr * cell).

Definition undefined : ValuePtr := 1%N.

Fixpoint lookup (h : heap) (p : ValuePtr) : option cell :=
  match h with
  | [] => None
  | (q, c) :: h' => if N.eqb q p then Some c else lookup h' p
  end.

Fixpoint update (h : heap) (p : ValuePtr) (c : cell) : heap :=
  match h with
  | [] => []
  | (q, d) :: h' => if N.eqb q p then (q, c) :: h' else (q, d) :: update h' p c
  end.

Fixpoint assoc (k : key) (props : list (key * ValuePtr)) : option ValuePtr :=
  match props with
  | [] => None
  | (k', v) :: rest => if key_eqb k' k then Some v else assoc k rest
  end.

Definition remove_key (k : key) (props : list (key * ValuePtr)) :=
  filter (fun b => negb (key_eqb (fst b) k)) props.

Definition put (k : key) (v : ValuePtr) (props : list (key * ValuePtr)) :=
  (k, v) :: remove_key k props.

(** HasProperty / Get: own properties first, then up the prototype chain. *)
Fixpoint find_prop (fuel : nat) (h : heap) (o : ValuePtr) (k : key) : option ValuePtr :=
  match fuel with
  | O => None
  | S n =>
      match lookup h o with
      | Some (Obj props proto _ _) =>
          match assoc k props with
          | Some v => Some v
          | None => find_prop n h proto k
          end
      | _ => None
      end
  end.

Definition get (k : key) (o : ValuePtr) (h : heap) : RtnValue * heap :=
  match lookup h o with
  | Some (Obj _ _ _ _) =>
      match find_prop (List.length h) h o k with
      | Some v => (mkRtn v "", h)
      | None => (mkRtn undefined "", h)
      end
  | _ => (mkRtn 0%N "TypeError: not an object", h)
  end.

Definition set (k : key) (o v : ValuePtr) (h : heap) : bool * heap :=
  match lookup h o with
  | Some (Obj props proto false slots) =>
      (true, update h o (Obj (put k v props) proto false slots))
  | _ => (false, h)
  end.

Definition has (k : key) (o : ValuePtr) (h : heap) : Z * heap :=
  match find_prop (List.length h) h o k with
  | Some _ => (1, h)
  | None => (0, h)
  end.

Definition delete (k : key) (o : ValuePtr) (h : heap) : Z * heap :=
  match lookup h o with
  | Some (Obj props proto false slots) =>
      match assoc k props with
      | Some _ => (1, update h o (Obj (remove_key k props) proto false slots))
      | None => (0, h)
      end
  | _ => (0, h)
  end.

Fixpoint replace_nth (n : nat) (v : ValuePtr) (l : list ValuePtr) : list ValuePtr :=
  match l, n with
  | [], _ => []
  | _ :: t, O => v :: t
  | x :: t, S m => x :: replace_nth m v t
  end.

Definition field_count (o : ValuePtr) (h : heap) : Z :=
  match lookup h o with
  | Some (Obj _ _ _ slots) => Z.of_nat (List.length slots)
  | _ => 0
  end.

Definition set_field (o : ValuePtr) (idx : Z) (v : ValuePtr) (h : heap) : Z * heap :=
  match lookup h o with
  | Some (Obj props proto frozen slots) =>
      if (0 <=? idx) && (idx <? Z.of_nat (List.length slots))
      then (1, update h o (Obj props proto frozen (replace_nth (Z.to_nat idx) v slots)))
      else (0, h)
  | _ => (0, h)
  end.

Definition get_field (o : ValuePtr) (idx : Z) (h : heap) : RtnValue * heap :=
  match lookup h o with
  | Some (Obj _ _ _ slots) =>
      if (0 <=? idx) && (idx <? Z.of_nat (List.length slots))
      then (mkRtn (nth (Z.to_nat idx) slots undefined) "", h)
      else (mkRtn 0%N "RangeError: internal field out of bounds", h)
  | _ => (mkRtn 0%N "RangeError: internal field out of bounds", h)
  end.

Definition get_prototype (o : ValuePtr) (h : heap) : RtnValue * heap :=
  match lookup h o with
  | Some (Obj _ proto _ _) => (mkRtn proto "", h)
  | _ => (mkRtn 0%N "", h)
  end.

Definition set_prototype (o p : ValuePtr) (h : heap) : heap :=
  match lookup h o with
  | Some (Obj props _ false slots) => update h o (Obj props p false slots)
  | _ => h
  end.

Definition is_function (p : ValuePtr) (h : heap) : bool :=
  match lookup h p with
  | Some (Func _) => true
  | _ => false
  end.

Definition call (f recv : ValuePtr) (args : list ValuePtr) (h : heap) : RtnValue * heap :=
  match lookup h f with
  | Some (Func ReturnThis) => (mkRtn recv "", h)
  | Some (Func ReturnFirstArg) => (mkRtn (hd undefined args) "", h)
  | Some (Func (Throw msg)) => (mkRtn 0%N msg, h)
  | _ => (mkRtn 0%N "TypeError: not a function", h)
  end.

Definition next_handle (h : heap) : ValuePtr :=
  N.succ (fold_right (fun b m => N.max (fst b) m) 0%N h).

Definition new_value (i : Isolate) (val : GoVal) (h : heap)
  : (option Value * option error) * heap :=
  if N.eqb i 0
  then ((None, Some (errorString "v8go: failed to create new Value: Isolate cannot be <nil>")), h)
  else let p := next_handle h in
       ((Some (mkValue p None), None), (h ++ [(p, Prim (typeName val))])%list).

Definition eng : Boundary heap :=
  {| NewValue := new_value;
     ObjectGet := fun o k => get (KName k) o;
     ObjectGetAnyKey := fun o k => get (KSym k) o;
     ObjectGetIdx := fun o i => get (KIdx i) o;
     ObjectSet := fun o k v => set (KName k) o v;
     ObjectSetAnyKey := fun o k v => set (KSym k) o v;
     ObjectSetIdx := fun o i v => set (KIdx i) o v;
     ObjectSetInternalField := set_field;
     ObjectInternalFieldCount := fun o h => (field_count o h, h);
     ObjectGetInternalField := get_field;
     ObjectHas := fun o k => has (KName k) o;
     ObjectHasAnyKey := fun o k => has (KSym k) o;
     ObjectHasIdx := fun o i => has (KIdx i) o;
     ObjectDelete := fun o k => delete (KName k) o;
     ObjectDeleteAnyKey := fun o k => delete (KSym k) o;
     ObjectDeleteIdx := fun o i => delete (KIdx i) o;
     ObjectGetPrototype := get_prototype;
     ObjectSetPrototype := set_prototype;
     ValueIsFunction := is_function;
     FunctionCall := call |}.

(** A session: context 1 on isolate 7; object 2 with a method, a number,
    a throwing method and two internal slots, prototype 5; a frozen
    object 6. *)
Definition ctx0 : Context := mkContext 1%N 7%N.

Definition h0 : heap :=
  [ (1%N, Undefined);
    (2%N, Obj [(KName "f", 3%N); (KName "n", 4%N); (KName "boom", 8%N)] 5%N false [1%N; 1%N]);
    (3%N, Func ReturnThis);
    (4%N, Prim "int32");
    (5%N, Obj [(KName "inherited", 4%N)] 0%N false []);
    (6%N, Obj [] 0%N true []);
    (8%N, Func (Throw "Error: boom")) ].

Definition w0 : World heap := mkWorld h0 [] [].

Definition obj (p : ValuePtr) : Object := mkObject (mkValue p (Some ctx0)).

End Toy.

(** ** Notions used to state the properties *)

Section Notions.

Context {E : Type} (eng : Boundary E).

(** The world after one boundary call. *)
Definition after_call (w : World E) (e' : E) (c : Call) : World E :=
  mkWorld e' (cheap w) (calls w ++ [c]).

(** What the four setters share: [o.ctx.iso] is read, the input is
    coerced, an error is handed back, otherwise the store [k] runs. *)
Definition coerced (o : Object) (val : GoVal)
           (k : option Value -> M E (option error)) : M E (option error) :=
  c <- deref (octx o) ;;
  r <- coerceValue eng (iso c) val ;;
  match snd r with
  | Some e => ret (Some e)
  | None => k (fst r)
  end.

(** The rest of each setter, after the error test. *)
Definition store_name (o : Object) (key : string) (value : option Value) : M E (option error) :=
  ckey <- CString key ;;
  defer (free ckey)
    (v <- deref value ;;
     C_ObjectSet eng (optr o) ckey (ptr v) ;;;
     ret None).

Definition store_symbol (o : Object) (key : Symbol) (value : option Value) : M E (option error) :=
  v <- deref value ;;
  C_ObjectSetAnyKey eng (optr o) (sptr key) (ptr v) ;;;
  ret None.

Definition store_idx (o : Object) (idx : Z) (value : option Value) : M E (option error) :=
  v <- deref value ;;
  C_ObjectSetIdx eng (optr o) (C_uint32_t idx) (ptr v) ;;;
  ret None.

Definition store_field (o : Object) (idx : Z) (value : option Value) : M E (option error) :=
  v <- deref value ;;
  inserted <- C_ObjectSetInternalField eng (optr o) (C_int idx) (ptr v) ;;
  if inserted =? 0
  then count <- Object_InternalFieldCount eng o ;;
       panic (PanicError (out_of_range idx count))
  else ret None.

(** The four operations that write through the boundary, for one receiver
    and one input value. *)
Inductive setter (o : Object) (val : GoVal) : M E (option error) -> Prop :=
| setter_Set (key : string) : setter o val (Object_Set eng o key val)
| setter_SetSymbol (key : Symbol) : setter o val (Object_SetSymbol eng o key val)
| setter_SetIdx (idx : Z) : setter o val (Object_SetIdx eng o idx val)
| setter_SetInternalField (idx : Z) : setter o val (Object_SetInternalField eng o idx val).

(** The stores behind the setters. *)
Inductive store (o : Object) : (option Value -> M E (option error)) -> Prop :=
| store_of_name (key : string) : store o (store_name o key)
| store_of_symbol (key : Symbol) : store o (store_symbol o key)
| store_of_idx (idx : Z) : store o (store_idx o idx)
| store_of_field (idx : Z) : store o (store_field o idx).

(** The argument pointers, as a pure function: [arg.value().ptr] for each
    argument, nil anywhere being a panic. *)
Fixpoint arg_ptr_list (args : list AnyValuer) : option (list ValuePtr) :=
  match args with
  | [] => Some []
  | a :: rest =>
      match av_value a, arg_ptr_list rest with
      | Some v, Some ps => Some (ptr v :: ps)
      | _, _ => None
      end
  end.

(** The receiver [o] as [MethodCall] hands it to [Call]. *)
Definition self (o : Object) : AnyValuer := mkAny Object Valuer_Object o.

(** Engine-side failure of a store surfacing, as section 4.2 words it:
    when coercion has succeeded and the engine refuses the store, Set
    returns an error. *)
Definition Set_surfaces_engine_failure
           (o : Object) (key : string) (val : GoVal)
           (w : World E) : Prop :=
  forall c v w1,
    octx o = Some c ->
    coerceValue eng (iso c) val w = (Ret (Some v, None), w1) ->
    fst (ObjectSet E eng (optr o) (c_str key) (ptr v) (engine w1)) = false ->
    exists e, fst (Object_Set eng o key val w) = Ret (Some e).

(** Modelled from the spec: the native side of [ObjectSetInternalField]
    (object.cc is absent).  Sections 4.3 and 6: the slot array has the
    declared count, zero for an object without internal fields, and the
    call reports "inserted" exactly for an index below that count. *)
Definition field_contract : Prop :=
  forall (o : ValuePtr) (idx : Z) (v : ValuePtr) (e : E),
    fst (ObjectSetInternalField E eng o idx v e) <> 0
    <-> 0 <= idx < fst (ObjectInternalFieldCount E eng o e).

(** A Go function of result type [bool] that makes the one boundary call
    logged as [c], whose outcome is [r], and returns: the world it leaves
    is the world of that call, and the boolean is true exactly when the
    engine's answer is nonzero. *)
Definition returns_answer (m : M E bool) (w : World E) (r : Z * E) (c : Call) : Prop :=
  exists b, m w = (Ret b, after_call w (snd r) c) /\ (b = true <-> fst r <> 0).

(** [HasSymbol] and [DeleteSymbol] for a key pointer that may be nil: the
    argument [key.ptr] is evaluated, and panics on nil, before the call. *)
Definition Object_HasSymbol_at (o : Object) (key : option Symbol) : M E bool :=
  k <- deref key ;;
  Object_HasSymbol eng o k.

Definition Object_DeleteSymbol_at (o : Object) (key : option Symbol) : M E bool :=
  k <- deref key ;;
  Object_DeleteSymbol eng o k.

(** Has and Delete by name as section 4.2 words them: the boolean answers
    for the property that the key itself names. *)
Definition Has_Delete_answer_for_key (o : Object) (key : string) (w : World E) : Prop :=
  (exists b w',
      Object_Has eng o key w = (Ret b, w') /\
      (b = true <-> fst (ObjectHas E eng (optr o) key (engine w)) <> 0))
  /\
  (exists b w',
      Object_Delete eng o key w = (Ret b, w') /\
      (b = true <-> fst (ObjectDelete E eng (optr o) key (engine w)) <> 0)).

End Notions.

(** * Properties *)

(** ** The C heap *)

Lemma heap_top_bound (h : CHeap) (b : N * string) :
  In b h -> (fst b <= heap_top h)%N.
Proof.
  induction h as [|x h IH]; simpl; [tauto|].
  intros [->|Hin]; unfold heap_top in *; simpl; [lia|].
  specialize (IH Hin). lia.
Qed.

Lemma heap_free_absent (p : N) (h : CHeap) :
  (forall b, In b h -> fst b <> p) -> heap_free p h = h.
Proof.
  induction h as [|x h IH]; simpl; intros Hall; [reflexivity|].
  destruct (N.eqb_spec (fst x) p) as [Heq|Hne]; simpl.
  - exfalso. apply (Hall x); auto.
  - f_equal. apply IH. intros b Hb. apply Hall. auto.
Qed.

Lemma fresh_not_live (h : CHeap) (b : N * string) : In b h -> fst b <> fresh h.
Proof.
  intros Hin Heq. apply heap_top_bound in Hin. unfold fresh in Heq. lia.
Qed.

Lemma heap_free_alloc (h : CHeap) (s : string) :
  heap_free (fresh h) ((fresh h, s) :: h) = h.
Proof.
  unfold heap_free. simpl. rewrite N.eqb_refl. simpl.
  apply heap_free_absent. intros b Hb. apply fresh_not_live, Hb.
Qed.

Lemma heap_lookup_alloc (p : N) (s : string) (h : CHeap) :
  heap_lookup p ((p, s) :: h) = Some s.
Proof. simpl. rewrite N.eqb_refl. reflexivity. Qed.

Lemma heap_lookup_fresh (h : CHeap) : heap_lookup (fresh h) h = None.
Proof.
  assert (H : forall p, (forall b, In b h -> fst b <> p) -> heap_lookup p h = None).
  { induction h as [|[a s] h IH]; simpl; intros p Hall; [reflexivity|].
    destruct (N.eqb_spec a p) as [Heq|Hne].
    - exfalso. apply (Hall (a, s)); auto.
    - apply IH. intros b Hb. apply Hall. auto. }
  apply H. intros b Hb. apply fresh_not_live, Hb.
Qed.

(** The engine reads back the key up to its first NUL: the terminator that
    [C.CString] appends adds nothing. *)
Lemma c_str_terminated (s : string) :
  c_str (s ++ String NUL EmptyString) = c_str s.
Proof.
  induction s as [|c s IH]; simpl.
  - reflexivity.
  - destruct (Ascii.eqb c NUL); [reflexivity|]. now rewrite IH.
Qed.

Lemma c_str_no_nul (s : string) :
  (forall c, List.In c (list_ascii_of_string s) -> c <> NUL) -> c_str s = s.
Proof.
  induction s as [|c s IH]; simpl; intros Hall; [reflexivity|].
  destruct (Ascii.eqb_spec c NUL) as [Heq|Hne].
  - exfalso. apply (Hall c); auto.
  - f_equal. apply IH. intros d Hd. apply Hall. auto.
Qed.

(** ** Running the functions of object.go *)

Arguments heap_free : simpl never.
Arguments fresh : simpl never.
Arguments c_str : simpl never.
Arguments String.append : simpl never.

Ltac go_unfold :=
  unfold Object_Get, Object_GetSymbol, Object_GetIdx, Object_GetInternalField,
    Object_GetPrototype, Object_SetPrototype,
    Object_Has, Object_HasSymbol, Object_HasIdx,
    Object_Delete, Object_DeleteSymbol, Object_DeleteIdx,
    Object_Set, Object_SetSymbol, Object_SetIdx, Object_SetInternalField,
    Object_InternalFieldCount, Object_MethodCall,
    C_ObjectGet, C_ObjectGetAnyKey, C_ObjectGetIdx, C_ObjectGetInternalField,
    C_ObjectGetPrototype, C_ObjectSetPrototype,
    C_ObjectHas, C_ObjectHasAnyKey, C_ObjectHasIdx,
    C_ObjectDelete, C_ObjectDeleteAnyKey, C_ObjectDeleteIdx,
    C_ObjectSet, C_ObjectSetAnyKey, C_ObjectSetIdx, C_ObjectSetInternalField,
    C_ObjectInternalFieldCount, C_FunctionCall, call_NewValue,
    deref, defer, CString, free, read_cstr, boundary, bind, ret, panic.

(** The marshalled key is live for the call and gone after it. *)
Ltac key_scope :=
  cbn [cheap engine calls fst snd];
  rewrite ?N.eqb_refl, ?c_str_terminated;
  cbv beta; cbn [cheap engine calls fst snd].

Section Runs.

Context {E : Type} (eng : Boundary E).

Lemma Object_Get_run (o : Object) (key : string) (w : World E) :
  Object_Get eng o key w =
  let r := ObjectGet E eng (optr o) (c_str key) (engine w) in
  (Ret (valueResult (octx o) (fst r)),
   after_call w (snd r) (CallObjectGet (optr o) (c_str key))).
Proof.
  go_unfold. cbn [cheap engine calls fst snd heap_lookup].
  key_scope.
  destruct (ObjectGet E eng (optr o) (c_str key) (engine w)) as [rtn e'].
  cbn [cheap engine calls fst snd]. rewrite heap_free_alloc. reflexivity.
Qed.

Lemma Object_Has_run (o : Object) (key : string) (w : World E) :
  Object_Has eng o key w =
  let r := ObjectHas E eng (optr o) (c_str key) (engine w) in
  (Ret (negb (fst r =? 0)),
   after_call w (snd r) (CallObjectHas (optr o) (c_str key))).
Proof.
  go_unfold. cbn [cheap engine calls fst snd heap_lookup].
  key_scope.
  destruct (ObjectHas E eng (optr o) (c_str key) (engine w)) as [rtn e'].
  cbn [cheap engine calls fst snd]. rewrite heap_free_alloc. reflexivity.
Qed.

Lemma Object_Delete_run (o : Object) (key : string) (w : World E) :
  Object_Delete eng o key w =
  let r := ObjectDelete E eng (optr o) (c_str key) (engine w) in
  (Ret (negb (fst r =? 0)),
   after_call w (snd r) (CallObjectDelete (optr o) (c_str key))).
Proof.
  go_unfold. cbn [cheap engine calls fst snd heap_lookup].
  key_scope.
  destruct (ObjectDelete E eng (optr o) (c_str key) (engine w)) as [rtn e'].
  cbn [cheap engine calls fst snd]. rewrite heap_free_alloc. reflexivity.
Qed.

End Runs.

(** ** Coercion *)

Section Coercion.

Context {E : Type} (eng : Boundary E).

Lemma coerceValue_primitive (i : Isolate) (val : GoVal) (w : World E) :
  is_primitive val = true ->
  coerceValue eng i val w =
  let r := NewValue E eng i val (engine w) in
  (Ret (fst (fst r), None), after_call w (snd r) (CallNewValue i val)).
Proof.
  intros Hp.
  destruct val; try discriminate Hp;
    unfold coerceValue; go_unfold;
    destruct (NewValue E eng i _ (engine w)) as [[v e] e']; reflexivity.
Qed.

Lemma coerceValue_valuer (i : Isolate) {T : Type} (inst : Valuer T) (x : T) (w : World E) :
  coerceValue eng i (GValuer inst x) w = (Ret (value x, None), w).
Proof. reflexivity. Qed.

Lemma coerceValue_unsupported (i : Isolate) (val : GoVal) (w : World E) :
  is_primitive val = false -> is_valuer val = false ->
  coerceValue eng i val w = (Ret (None, Some (unsupported (typeName val))), w).
Proof.
  intros Hp Hv. destruct val; try discriminate Hp; try discriminate Hv; reflexivity.
Qed.

(** The three branches of the type switch cover every input. *)
Lemma shape_cases (val : GoVal) :
  is_primitive val = true \/
  (exists T (inst : Valuer T) (x : T), val = GValuer inst x) \/
  (is_primitive val = false /\ is_valuer val = false).
Proof.
  destruct val; simpl; auto.
  right; left. eauto.
Qed.

(** An error out of [coerceValue] can only be the unsupported-type error,
    and then the world is the one it started in. *)
Lemma coerceValue_error (i : Isolate) (val : GoVal) (w w1 : World E)
      (v : option Value) (e : error) :
  coerceValue eng i val w = (Ret (v, Some e), w1) ->
  w1 = w /\ v = None /\ e = unsupported (typeName val) /\
  is_primitive val = false /\ is_valuer val = false.
Proof.
  intros H.
  destruct (shape_cases val) as [Hp | [(T & inst & x & ->) | [Hp Hv]]].
  - rewrite (coerceValue_primitive i val w Hp) in H. cbv zeta in H. discriminate H.
  - rewrite coerceValue_valuer in H. discriminate H.
  - rewrite (coerceValue_unsupported i val w Hp Hv) in H.
    injection H as <- <- <-. auto.
Qed.

(** [coerceValue] always returns; it leaves the C heap alone and logs at
    most the call to [NewValue]. *)
Lemma coerceValue_total (i : Isolate) (val : GoVal) (w : World E) :
  exists v oe w1 l,
    coerceValue eng i val w = (Ret (v, oe), w1) /\
    cheap w1 = cheap w /\
    calls w1 = (calls w ++ l)%list /\
    existsb is_set_call l = false.
Proof.
  destruct (shape_cases val) as [Hp | [(T & inst & x & ->) | [Hp Hv]]].
  - rewrite (coerceValue_primitive i val w Hp). cbv zeta.
    do 3 eexists. exists [CallNewValue i val].
    split; [reflexivity|]. auto.
  - rewrite coerceValue_valuer. do 3 eexists. exists [].
    split; [reflexivity|]. rewrite app_nil_r. auto.
  - rewrite (coerceValue_unsupported i val w Hp Hv). do 3 eexists. exists [].
    split; [reflexivity|]. rewrite app_nil_r. auto.
Qed.

Lemma Object_Set_coerced o key val :
  Object_Set eng o key val = coerced eng o val (store_name eng o key).
Proof. reflexivity. Qed.

Lemma Object_SetSymbol_coerced o key val :
  Object_SetSymbol eng o key val = coerced eng o val (store_symbol eng o key).
Proof. reflexivity. Qed.

Lemma Object_SetIdx_coerced o idx val :
  Object_SetIdx eng o idx val = coerced eng o val (store_idx eng o idx).
Proof. reflexivity. Qed.

Lemma Object_SetInternalField_coerced o idx val :
  Object_SetInternalField eng o idx val = coerced eng o val (store_field eng o idx).
Proof. reflexivity. Qed.

Lemma coerced_no_ctx o val k (w : World E) :
  octx o = None -> coerced eng o val k w = (Panic NilDereference, w).
Proof. intros H. unfold coerced, bind, deref. rewrite H. reflexivity. Qed.

Lemma coerced_error o c val k (w w1 : World E) v e :
  octx o = Some c ->
  coerceValue eng (iso c) val w = (Ret (v, Some e), w1) ->
  coerced eng o val k w = (Ret (Some e), w1).
Proof.
  intros Hc H. unfold coerced, bind, deref. rewrite Hc. cbn [ret].
  rewrite H. reflexivity.
Qed.

Lemma coerced_ok o c val k (w w1 : World E) v :
  octx o = Some c ->
  coerceValue eng (iso c) val w = (Ret (v, None), w1) ->
  coerced eng o val k w = k v w1.
Proof.
  intros Hc H. unfold coerced, bind, deref. rewrite Hc. cbn [ret].
  rewrite H. reflexivity.
Qed.

(** The stores on a nil [*Value]: [value.ptr] panics before any call. *)
Lemma store_name_nil o key (w : World E) :
  store_name eng o key None w = (Panic NilDereference, w).
Proof.
  unfold store_name. go_unfold. cbn [cheap engine calls fst snd].
  rewrite heap_free_alloc. destruct w; reflexivity.
Qed.

Lemma store_symbol_nil o key (w : World E) :
  store_symbol eng o key None w = (Panic NilDereference, w).
Proof. reflexivity. Qed.

Lemma store_idx_nil o idx (w : World E) :
  store_idx eng o idx None w = (Panic NilDereference, w).
Proof. reflexivity. Qed.

Lemma store_field_nil o idx (w : World E) :
  store_field eng o idx None w = (Panic NilDereference, w).
Proof. reflexivity. Qed.

Lemma store_name_run o key v (w : World E) :
  store_name eng o key (Some v) w =
  let r := ObjectSet E eng (optr o) (c_str key) (ptr v) (engine w) in
  (Ret None, after_call w (snd r) (CallObjectSet (optr o) (c_str key) (ptr v) (fst r))).
Proof.
  unfold store_name. go_unfold. cbn [cheap engine calls fst snd heap_lookup].
  key_scope.
  destruct (ObjectSet E eng (optr o) (c_str key) (ptr v) (engine w)) as [ok e'].
  cbn [cheap engine calls fst snd]. rewrite heap_free_alloc. reflexivity.
Qed.

Lemma store_symbol_run o key v (w : World E) :
  store_symbol eng o key (Some v) w =
  let r := ObjectSetAnyKey E eng (optr o) (sptr key) (ptr v) (engine w) in
  (Ret None, after_call w (snd r) (CallObjectSetAnyKey (optr o) (sptr key) (ptr v) (fst r))).
Proof.
  unfold store_symbol. go_unfold.
  destruct (ObjectSetAnyKey E eng (optr o) (sptr key) (ptr v) (engine w)) as [ok e'].
  reflexivity.
Qed.

Lemma store_idx_run o idx v (w : World E) :
  store_idx eng o idx (Some v) w =
  let r := ObjectSetIdx E eng (optr o) (C_uint32_t idx) (ptr v) (engine w) in
  (Ret None,
   after_call w (snd r) (CallObjectSetIdx (optr o) (C_uint32_t idx) (ptr v) (fst r))).
Proof.
  unfold store_idx. go_unfold.
  destruct (ObjectSetIdx E eng (optr o) (C_uint32_t idx) (ptr v) (engine w)) as [ok e'].
  reflexivity.
Qed.

Lemma store_field_run o idx v (w : World E) :
  store_field eng o idx (Some v) w =
  let r := ObjectSetInternalField E eng (optr o) (C_int idx) (ptr v) (engine w) in
  let w1 := after_call w (snd r) (CallObjectSetInternalField (optr o) (C_int idx) (ptr v)) in
  if fst r =? 0
  then let n := ObjectInternalFieldCount E eng (optr o) (snd r) in
       (Panic (PanicError (out_of_range idx (uint32_wrap (fst n)))),
        after_call w1 (snd n) (CallObjectInternalFieldCount (optr o)))
  else (Ret None, w1).
Proof.
  unfold store_field. go_unfold.
  destruct (ObjectSetInternalField E eng (optr o) (C_int idx) (ptr v) (engine w))
    as [ins e'].
  cbn [fst snd engine cheap calls]. cbv zeta.
  destruct (ins =? 0); [|reflexivity].
  cbn [fst snd engine cheap calls].
  destruct (ObjectInternalFieldCount E eng (optr o) e') as [n e''].
  reflexivity.
Qed.

End Coercion.

(** ** Method invocation *)

Section Invocation.

Context {E : Type} (eng : Boundary E).

Lemma arg_ptrs_run (args : list AnyValuer) (w : World E) :
  arg_ptrs args w =
  (match arg_ptr_list args with
   | Some ps => Ret ps
   | None => Panic NilDereference
   end, w).
Proof.
  induction args as [|a rest IH]; [reflexivity|].
  cbn [arg_ptrs arg_ptr_list]. unfold bind, deref.
  destruct (av_value a) as [v|]; [|reflexivity].
  cbn [ret]. rewrite IH.
  destruct (arg_ptr_list rest); reflexivity.
Qed.

Lemma Function_Call_run (fn : Function) (recv : AnyValuer) (args : list AnyValuer)
      (w : World E) :
  Function_Call eng fn recv args w =
  match arg_ptr_list args, av_value recv with
  | Some ps, Some r =>
      let x := FunctionCall E eng (ptr (fn_value fn)) (ptr r) ps (engine w) in
      (Ret (valueResult (ctx (fn_value fn)) (fst x)),
       after_call w (snd x) (CallFunctionCall (ptr (fn_value fn)) (ptr r) ps))
  | _, _ => (Panic NilDereference, w)
  end.
Proof.
  unfold Function_Call. unfold bind at 1. rewrite arg_ptrs_run.
  destruct (arg_ptr_list args) as [ps|]; [|destruct (av_value recv); reflexivity].
  go_unfold.
  destruct (av_value recv) as [r|]; [|reflexivity].
  destruct (FunctionCall E eng (ptr (fn_value fn)) (ptr r) ps (engine w)) as [rtn e'].
  reflexivity.
Qed.

(** [Function_Call] neither reads nor writes the C heap. *)
Lemma Function_Call_frame (fn : Function) (recv : AnyValuer) (args : list AnyValuer)
      (e : E) (h h' : CHeap) (c : list Call) :
  Function_Call eng fn recv args (mkWorld e h' c) =
  (fst (Function_Call eng fn recv args (mkWorld e h c)),
   mkWorld (engine (snd (Function_Call eng fn recv args (mkWorld e h c))))
           h'
           (calls (snd (Function_Call eng fn recv args (mkWorld e h c))))).
Proof.
  rewrite !Function_Call_run.
  destruct (arg_ptr_list args) as [ps|]; [|reflexivity].
  destruct (av_value recv) as [r|]; reflexivity.
Qed.

Lemma Function_Call_heap (fn : Function) (recv : AnyValuer) (args : list AnyValuer)
      (w : World E) :
  cheap (snd (Function_Call eng fn recv args w)) = cheap w.
Proof.
  rewrite Function_Call_run.
  destruct (arg_ptr_list args) as [ps|]; [|reflexivity].
  destruct (av_value recv) as [r|]; reflexivity.
Qed.

Lemma Object_MethodCall_run (o : Object) (methodName : string) (args : list AnyValuer)
      (w : World E) :
  Object_MethodCall eng o methodName args w =
  let g := ObjectGet E eng (optr o) (c_str methodName) (engine w) in
  let w1 := after_call w (snd g) (CallObjectGet (optr o) (c_str methodName)) in
  match valueResult (octx o) (fst g) with
  | (_, Some e) => (Ret (None, Some e), w1)
  | (None, None) => (Panic NilDereference, w1)
  | (Some p, None) =>
      if ValueIsFunction E eng (ptr p) (snd g)
      then Function_Call eng (mkFunction p) (self o) args w1
      else (Ret (None, Some NotAFunction), w1)
  end.
Proof.
  go_unfold. cbn [cheap engine calls fst snd heap_lookup].
  key_scope.
  destruct (ObjectGet E eng (optr o) (c_str methodName) (engine w)) as [rtn e'].
  cbn [cheap engine calls fst snd]. cbv zeta.
  unfold valueResult, AsFunction.
  destruct (rtn_value rtn =? 0)%N.
  - cbn [cheap engine calls fst snd]. rewrite heap_free_alloc. reflexivity.
  - cbn [cheap engine calls fst snd ptr].
    destruct (ValueIsFunction E eng (rtn_value rtn) e').
    + cbn [cheap engine calls fst snd]. fold (self o).
      rewrite (Function_Call_frame _ _ _ e' (cheap w)).
      unfold after_call. cbn [cheap engine calls fst snd].
      rewrite heap_free_alloc.
      match goal with
      | |- context [Function_Call eng ?f ?r ?a ?w0] =>
          pose proof (Function_Call_heap f r a w0) as Hh;
          destruct (Function_Call eng f r a w0) as [res w2]
      end.
      cbn [cheap engine calls fst snd] in *.
      destruct w2 as [e2 h2 c2]. cbn [cheap engine calls] in *.
      subst h2. reflexivity.
    + cbn [cheap engine calls fst snd]. rewrite heap_free_alloc. reflexivity.
Qed.

End Invocation.

(** ** The setters *)

Section Setters.

Context {E : Type} (eng : Boundary E).

Lemma setter_store o val m :
  setter eng o val m -> exists k, store eng o k /\ m = coerced eng o val k.
Proof.
  intros []; eexists; (split; [constructor|reflexivity]).
Qed.

Lemma store_nil o k (w : World E) :
  store eng o k -> k None w = (Panic NilDereference, w).
Proof.
  intros []; [apply store_name_nil | reflexivity | reflexivity | reflexivity].
Qed.

Lemma store_extends o k v (w : World E) :
  store eng o k -> exists l, calls (snd (k v w)) = (calls w ++ l)%list.
Proof.
  intros Hk. destruct v as [v|].
  - destruct Hk.
    + rewrite store_name_run. cbv zeta. eexists. reflexivity.
    + rewrite store_symbol_run. cbv zeta. eexists. reflexivity.
    + rewrite store_idx_run. cbv zeta. eexists. reflexivity.
    + rewrite store_field_run. cbv zeta.
      destruct (fst _ =? 0); cbn [snd calls after_call].
      * rewrite <- app_assoc. eexists. reflexivity.
      * eexists. reflexivity.
  - rewrite (store_nil o k w Hk). exists []. now rewrite app_nil_r.
Qed.

Lemma coerced_set_call o val k (w : World E) (l : list Call) :
  store eng o k ->
  calls (snd (coerced eng o val k w)) = (calls w ++ l)%list ->
  existsb is_set_call l = true ->
  exists c v w1 l1 l2,
    octx o = Some c /\
    coerceValue eng (iso c) val w = (Ret (Some v, None), w1) /\
    calls w1 = (calls w ++ l1)%list /\
    existsb is_set_call l1 = false /\
    l = (l1 ++ l2)%list.
Proof.
  intros Hk Hlog Hset.
  destruct (octx o) as [c|] eqn:Hc.
  2:{ rewrite (coerced_no_ctx eng o val k w Hc) in Hlog. cbn [snd] in Hlog.
      rewrite <- (app_nil_r (calls w)) in Hlog at 1.
      apply app_inv_head in Hlog. subst l. discriminate Hset. }
  destruct (coerceValue_total eng (iso c) val w) as (v & oe & w1 & l1 & Hco & _ & Hl1 & Hno).
  destruct oe as [e|].
  { rewrite (coerced_error eng o c val k w w1 v e Hc Hco) in Hlog. cbn [snd] in Hlog.
    rewrite Hl1 in Hlog. apply app_inv_head in Hlog. subst l.
    rewrite Hno in Hset. discriminate Hset. }
  rewrite (coerced_ok eng o c val k w w1 v Hc Hco) in Hlog.
  destruct v as [v|].
  - destruct (store_extends o k (Some v) w1 Hk) as [l2 Hl2].
    rewrite Hl2, Hl1, <- app_assoc in Hlog. apply app_inv_head in Hlog.
    exists c, v, w1, l1, l2. auto.
  - rewrite (store_nil o k w1 Hk) in Hlog. cbn [snd] in Hlog.
    rewrite Hl1 in Hlog. apply app_inv_head in Hlog. subst l.
    rewrite Hno in Hset. discriminate Hset.
Qed.

End Setters.

(** C1.  For the four key kinds (name, symbol, index, internal field) and
    every input: when coercion of the input fails, the setter returns that
    very error and the world (engine state, C heap, log of boundary calls)
    is the one it started in; and a boundary set call is logged only when
    coercion had succeeded, after whatever coercion itself logged. *)
Theorem C1_coercion_failure_short_circuits
        {E : Type} (eng : Boundary E) (o : Object) (val : GoVal) (w : World E) :
  (forall c v e w1,
      octx o = Some c ->
      coerceValue eng (iso c) val w = (Ret (v, Some e), w1) ->
      w1 = w /\
      forall m, setter eng o val m -> m w = (Ret (Some e), w))
  /\
  (forall m l,
      setter eng o val m ->
      calls (snd (m w)) = (calls w ++ l)%list ->
      existsb is_set_call l = true ->
      exists c v w1 l1 l2,
        octx o = Some c /\
        coerceValue eng (iso c) val w = (Ret (Some v, None), w1) /\
        calls w1 = (calls w ++ l1)%list /\
        existsb is_set_call l1 = false /\
        l = (l1 ++ l2)%list).
Proof.
  split.
  - intros c v e w1 Hc Hco.
    destruct (coerceValue_error eng (iso c) val w w1 v e Hco) as (-> & _).
    split; [reflexivity|].
    intros m Hm. destruct (setter_store eng o val m Hm) as (k & _ & ->).
    exact (coerced_error eng o c val k w w v e Hc Hco).
  - intros m l Hm Hlog Hset.
    destruct (setter_store eng o val m Hm) as (k & Hk & ->).
    exact (coerced_set_call eng o val k w l Hk Hlog Hset).
Qed.

Lemma C1_coercion_failure_short_circuits_witness :
  Object_Set Toy.eng (Toy.obj 2) "k" (GOther "map[string]int") Toy.w0
  = (Ret (Some (unsupported "map[string]int")), Toy.w0)
  /\
  exists c v w1 l1 l2,
    octx (Toy.obj 6) = Some c /\
    coerceValue Toy.eng (iso c) (GInt32 5) Toy.w0 = (Ret (Some v, None), w1) /\
    calls w1 = (calls Toy.w0 ++ l1)%list /\
    existsb is_set_call l1 = false /\
    [CallNewValue 7 (GInt32 5); CallObjectSetIdx 6 3 9 false] = (l1 ++ l2)%list.
Proof.
  split.
  - apply (proj1 (C1_coercion_failure_short_circuits
                    Toy.eng (Toy.obj 2) (GOther "map[string]int") Toy.w0)
                 Toy.ctx0 None (unsupported "map[string]int") Toy.w0
                 eq_refl eq_refl).
    apply setter_Set.
  - apply (proj2 (C1_coercion_failure_short_circuits
                    Toy.eng (Toy.obj 6) (GInt32 5) Toy.w0)
                 (Object_SetIdx Toy.eng (Toy.obj 6) 3 (GInt32 5))
                 [CallNewValue 7 (GInt32 5); CallObjectSetIdx 6 3 9 false]
                 (setter_SetIdx Toy.eng (Toy.obj 6) (GInt32 5) 3)).
    + vm_compute. reflexivity.
    + reflexivity.
Defined.

(** C2.  MethodCall does what a name-keyed Get does first: an error of
    that Get is returned unchanged; a property that is not callable gives
    a NotAFunction error; otherwise the function is called with the object
    as receiver, and what the call returns (the Value, or the error raised
    by the invocation) is what MethodCall returns. *)
Theorem C2_MethodCall_get_then_call
        {E : Type} (eng : Boundary E) (o : Object) (methodName : string)
        (args : list AnyValuer) (w : World E) :
  (forall v e wg,
      Object_Get eng o methodName w = (Ret (v, Some e), wg) ->
      Object_MethodCall eng o methodName args w = (Ret (None, Some e), wg))
  /\
  (forall prop wg,
      Object_Get eng o methodName w = (Ret (Some prop, None), wg) ->
      ValueIsFunction E eng (ptr prop) (engine wg) = false ->
      Object_MethodCall eng o methodName args w = (Ret (None, Some NotAFunction), wg))
  /\
  (forall prop wg,
      Object_Get eng o methodName w = (Ret (Some prop, None), wg) ->
      ValueIsFunction E eng (ptr prop) (engine wg) = true ->
      Object_MethodCall eng o methodName args w
      = Function_Call eng (mkFunction prop) (self o) args wg
      /\
      forall ps, arg_ptr_list args = Some ps ->
        let x := FunctionCall E eng (ptr prop) (optr o) ps (engine wg) in
        Object_MethodCall eng o methodName args w
        = (Ret (valueResult (ctx prop) (fst x)),
           after_call wg (snd x) (CallFunctionCall (ptr prop) (optr o) ps))).
Proof.
  rewrite Object_Get_run, Object_MethodCall_run. cbv zeta.
  destruct (ObjectGet E eng (optr o) (c_str methodName) (engine w)) as [rtn e'].
  cbn [fst snd].
  destruct (valueResult (octx o) rtn) as [[p|] [e0|]] eqn:Hv;
    (split; [|split]).
  all: try (intros ? ? ? H; injection H as <- <- <-; reflexivity).
  all: try (intros ? ? H; discriminate H).
  all: try (intros ? ? ? H; discriminate H).
  - intros prop wg H Hf. injection H as <- <-.
    cbn [engine after_call] in Hf. now rewrite Hf.
  - intros prop wg H Hf. injection H as <- <-.
    cbn [engine after_call] in Hf. rewrite Hf.
    split; [reflexivity|].
    intros ps Hps. cbv zeta. rewrite Function_Call_run, Hps. reflexivity.
Qed.

Lemma C2_MethodCall_get_then_call_witness :
  Object_MethodCall Toy.eng (Toy.obj 4) "f" [] Toy.w0
  = (Ret (None, Some (JSError "TypeError: not an object")),
     after_call Toy.w0 Toy.h0 (CallObjectGet 4 "f"))
  /\
  Object_MethodCall Toy.eng (Toy.obj 2) "n" [] Toy.w0
  = (Ret (None, Some NotAFunction), after_call Toy.w0 Toy.h0 (CallObjectGet 2 "n"))
  /\
  Object_MethodCall Toy.eng (Toy.obj 2) "f" [] Toy.w0
  = (Ret (Some (mkValue 2 (Some Toy.ctx0)), None),
     mkWorld Toy.h0 [] [CallObjectGet 2 "f"; CallFunctionCall 3 2 []]).
Proof.
  split; [|split].
  - apply (proj1 (C2_MethodCall_get_then_call Toy.eng (Toy.obj 4) "f" [] Toy.w0)
                 None (JSError "TypeError: not an object")).
    vm_compute. reflexivity.
  - apply (proj1 (proj2 (C2_MethodCall_get_then_call Toy.eng (Toy.obj 2) "n" [] Toy.w0))
                 (mkValue 4 (Some Toy.ctx0))).
    + vm_compute. reflexivity.
    + reflexivity.
  - apply (proj2 (proj2 (proj2 (C2_MethodCall_get_then_call
                                  Toy.eng (Toy.obj 2) "f" [] Toy.w0))
                        (mkValue 3 (Some Toy.ctx0))
                        (after_call Toy.w0 Toy.h0 (CallObjectGet 2 "f"))
                        ltac:(vm_compute; reflexivity) eq_refl)
                 [] eq_refl).
Defined.

(** C3.  For every input of a supported primitive shape (string, int32,
    uint32, int64, uint64, float64, bool, bigint) coerceValue returns, and
    returns no error: the result is the Value that NewValue built, the
    error is nil, whatever NewValue itself reported. *)
Theorem C3_primitive_coercion_never_errors
        {E : Type} (eng : Boundary E) (i : Isolate) (val : GoVal) (w : World E) :
  is_primitive val = true ->
  exists v w1,
    coerceValue eng i val w = (Ret (v, None), w1) /\
    v = fst (fst (NewValue E eng i val (engine w))) /\
    w1 = after_call w (snd (NewValue E eng i val (engine w))) (CallNewValue i val).
Proof.
  intros Hp. rewrite (coerceValue_primitive eng i val w Hp). cbv zeta.
  eauto.
Qed.

Lemma C3_primitive_coercion_never_errors_witness :
  exists v w1,
    coerceValue Toy.eng 7 (GString "hello") Toy.w0 = (Ret (v, None), w1) /\
    v = fst (fst (NewValue _ Toy.eng 7 (GString "hello") (engine Toy.w0))) /\
    w1 = after_call Toy.w0 (snd (NewValue _ Toy.eng 7 (GString "hello") (engine Toy.w0)))
                    (CallNewValue 7 (GString "hello")).
Proof.
  apply (C3_primitive_coercion_never_errors Toy.eng 7 (GString "hello") Toy.w0).
  reflexivity.
Defined.

(** C6.  For every input behind the Valuer interface, coerceValue returns
    the Value that the input's own value() yields, with no error, and the
    world is unchanged: nothing is allocated in the engine and no boundary
    call is made. *)
Theorem C6_valuer_coercion_is_identity
        {E : Type} (eng : Boundary E) (i : Isolate)
        {T : Type} (inst : Valuer T) (x : T) (w : World E) :
  coerceValue eng i (GValuer inst x) w = (Ret (value x, None), w).
Proof. apply coerceValue_valuer. Qed.

(** C7.  For every input that is neither a supported primitive nor a
    Valuer, coerceValue fails with the unsupported-type error, whose
    message holds the name of the input's dynamic type, and the world is
    unchanged: no engine allocation, no boundary call. *)
Theorem C7_unsupported_type_error
        {E : Type} (eng : Boundary E) (i : Isolate) (val : GoVal) (w : World E) :
  is_primitive val = false ->
  is_valuer val = false ->
  coerceValue eng i val w
  = (Ret (None,
          Some (errorString
                  ("v8go: unsupported object property type `" ++ typeName val ++ "`"))),
     w).
Proof. apply coerceValue_unsupported. Qed.

Lemma C7_unsupported_type_error_witness :
  coerceValue Toy.eng 7 (GOther "map[string]int") Toy.w0
  = (Ret (None,
          Some (errorString "v8go: unsupported object property type `map[string]int`")),
     Toy.w0)
  /\
  coerceValue Toy.eng 7 GNil Toy.w0
  = (Ret (None, Some (errorString "v8go: unsupported object property type `<nil>`")),
     Toy.w0).
Proof.
  split.
  - apply (C7_unsupported_type_error Toy.eng 7 (GOther "map[string]int") Toy.w0);
      reflexivity.
  - apply (C7_unsupported_type_error Toy.eng 7 GNil Toy.w0); reflexivity.
Defined.

(** C4, counterexample.  Object 6 is frozen: the engine refuses the store
    of "k", and Set returns nil all the same. *)
Lemma C4_engine_failure_not_surfaced :
  ~ Set_surfaces_engine_failure Toy.eng (Toy.obj 6) "k" (GInt32 5) Toy.w0.
Proof.
  intros H.
  destruct (H Toy.ctx0 (mkValue 9 None)
              (mkWorld (Toy.h0 ++ [(9%N, Toy.Prim "int32")])%list []
                       [CallNewValue 7 (GInt32 5)]))
    as [e He].
  - reflexivity.
  - vm_compute. reflexivity.
  - vm_compute. reflexivity.
  - vm_compute in He. discriminate He.
Qed.

(** C4, as amended.  For every Set by name: when coercion has succeeded,
    Set makes the one boundary set call, with the key as the engine reads
    it and the coerced value, and returns nil; the engine's verdict on the
    store does not reach the caller. *)
Theorem C4_Set_returns_nil_after_coercion
        {E : Type} (eng : Boundary E) (o : Object) (c : Context) (key : string)
        (val : GoVal) (w w1 : World E) (v : Value) :
  octx o = Some c ->
  coerceValue eng (iso c) val w = (Ret (Some v, None), w1) ->
  let r := ObjectSet E eng (optr o) (c_str key) (ptr v) (engine w1) in
  Object_Set eng o key val w
  = (Ret None,
     after_call w1 (snd r) (CallObjectSet (optr o) (c_str key) (ptr v) (fst r))).
Proof.
  intros Hc Hco. cbv zeta.
  rewrite Object_Set_coerced, (coerced_ok eng o c val _ w w1 (Some v) Hc Hco).
  apply store_name_run.
Qed.

Lemma C4_Set_returns_nil_after_coercion_witness :
  Object_Set Toy.eng (Toy.obj 6) "k" (GInt32 5) Toy.w0
  = (Ret None,
     mkWorld (Toy.h0 ++ [(9%N, Toy.Prim "int32")])%list []
             [CallNewValue 7 (GInt32 5); CallObjectSet 6 "k" 9 false]).
Proof.
  apply (C4_Set_returns_nil_after_coercion
           Toy.eng (Toy.obj 6) Toy.ctx0 "k" (GInt32 5) Toy.w0
           (mkWorld (Toy.h0 ++ [(9%N, Toy.Prim "int32")])%list []
                    [CallNewValue 7 (GInt32 5)])
           (mkValue 9 None) eq_refl).
  vm_compute. reflexivity.
Defined.

(** ** Internal fields *)

Lemma C_int_small (idx : Z) : 0 <= idx < 2 ^ 31 -> C_int idx = idx.
Proof.
  intros H. unfold C_int, uint32_wrap.
  rewrite Z.mod_small by lia.
  destruct (Z.ltb_spec idx (2 ^ 31)); lia.
Qed.

Lemma C_int_large (idx : Z) : 2 ^ 31 <= idx < 2 ^ 32 -> C_int idx = idx - 2 ^ 32.
Proof.
  intros H. unfold C_int, uint32_wrap.
  rewrite Z.mod_small by lia.
  destruct (Z.ltb_spec idx (2 ^ 31)); lia.
Qed.

(** An index at or above the count is outside the slots, also after the
    conversion to a C int. *)
Lemma C_int_out_of_range (idx n : Z) :
  0 <= idx < 2 ^ 32 -> n <= idx -> ~ (0 <= C_int idx < n).
Proof.
  intros Hr Hn.
  destruct (Z.lt_ge_cases idx (2 ^ 31)).
  - rewrite C_int_small by lia. lia.
  - rewrite C_int_large by lia. lia.
Qed.

Lemma Toy_field_contract : field_contract Toy.eng.
Proof.
  intros o idx v h. cbn [Toy.eng ObjectSetInternalField ObjectInternalFieldCount fst].
  unfold Toy.set_field, Toy.field_count.
  destruct (Toy.lookup h o) as [[| | |props proto frozen slots]|]; cbn [fst];
    try (split; [congruence|lia]).
  destruct (Z.leb_spec 0 idx), (Z.ltb_spec idx (Z.of_nat (List.length slots)));
    cbn [andb fst]; split; (congruence || lia).
Qed.

(** C5.  The only error value SetInternalField returns is the error of a
    failed coercion, and then nothing has been touched.  When coercion has
    succeeded and the index is at or above the object's internal field
    count (zero for an object without internal fields), the call panics
    with the index-out-of-range error; it does not return. *)
Theorem C5_SetInternalField_range_is_fatal
        {E : Type} (eng : Boundary E) (o : Object) (idx : Z) (val : GoVal)
        (w : World E) :
  (forall e w',
      Object_SetInternalField eng o idx val w = (Ret (Some e), w') ->
      w' = w /\
      exists c, octx o = Some c /\
                coerceValue eng (iso c) val w = (Ret (None, Some e), w))
  /\
  (field_contract eng ->
   0 <= idx < 2 ^ 32 ->
   forall c v w1,
     octx o = Some c ->
     coerceValue eng (iso c) val w = (Ret (Some v, None), w1) ->
     fst (ObjectInternalFieldCount E eng (optr o) (engine w1)) <= idx ->
     exists n w',
       Object_SetInternalField eng o idx val w
       = (Panic (PanicError (out_of_range idx n)), w')).
Proof.
  rewrite Object_SetInternalField_coerced. split.
  - intros e w' H.
    destruct (octx o) as [c|] eqn:Hc.
    2:{ rewrite (coerced_no_ctx eng o val _ w Hc) in H. discriminate H. }
    destruct (coerceValue_total eng (iso c) val w) as (v & oe & w1 & l & Hco & _).
    destruct oe as [e0|].
    + rewrite (coerced_error eng o c val _ w w1 v e0 Hc Hco) in H.
      injection H as <- <-.
      destruct (coerceValue_error eng (iso c) val w w1 v e0 Hco) as (-> & -> & _).
      eauto.
    + rewrite (coerced_ok eng o c val _ w w1 v Hc Hco) in H.
      destruct v as [v|].
      * rewrite store_field_run in H. cbv zeta in H.
        destruct (fst _ =? 0) in H; discriminate H.
      * rewrite store_field_nil in H. discriminate H.
  - intros Hcontract Hidx c v w1 Hc Hco Hout.
    rewrite (coerced_ok eng o c val _ w w1 (Some v) Hc Hco), store_field_run.
    cbv zeta.
    destruct (Z.eqb_spec
                (fst (ObjectSetInternalField E eng (optr o) (C_int idx) (ptr v) (engine w1)))
                0) as [_|Hins].
    + eauto.
    + exfalso. apply Hcontract in Hins.
      exact (C_int_out_of_range idx _ Hidx Hout Hins).
Qed.

Lemma C5_SetInternalField_range_is_fatal_witness :
  (Toy.w0 = Toy.w0 /\
   exists c, octx (Toy.obj 2) = Some c /\
             coerceValue Toy.eng (iso c) (GOther "struct {}") Toy.w0
             = (Ret (None, Some (unsupported "struct {}")), Toy.w0))
  /\
  exists n w',
    Object_SetInternalField Toy.eng (Toy.obj 2) 2 (GBool true) Toy.w0
    = (Panic (PanicError (out_of_range 2 n)), w').
Proof.
  split.
  - apply (proj1 (C5_SetInternalField_range_is_fatal
                    Toy.eng (Toy.obj 2) 7 (GOther "struct {}") Toy.w0)
                 (unsupported "struct {}") Toy.w0).
    reflexivity.
  - apply (proj2 (C5_SetInternalField_range_is_fatal
                    Toy.eng (Toy.obj 2) 2 (GBool true) Toy.w0)
                 Toy_field_contract ltac:(lia)
                 Toy.ctx0 (mkValue 9 None)
                 (mkWorld (Toy.h0 ++ [(9%N, Toy.Prim "bool")])%list []
                          [CallNewValue 7 (GBool true)])
                 eq_refl).
    + vm_compute. reflexivity.
    + vm_compute. discriminate.
Defined.

(** ** Has and Delete *)

Lemma nonzero_spec (z : Z) : negb (z =? 0) = true <-> z <> 0.
Proof. destruct (Z.eqb_spec z 0); simpl; split; congruence. Qed.

(** C8, counterexample.  Object 2 has a property "n" and none named "n",
    NUL, "x": the engine, asked about that name, says no to Has and to
    Delete, while Has and Delete with that key both return true (and "n"
    is the property that is deleted). *)
Lemma C8_NUL_key_answers_for_prefix :
  ~ Has_Delete_answer_for_key Toy.eng (Toy.obj 2) ("n" ++ String NUL "x") Toy.w0.
Proof.
  intros [(b & w' & H & Hiff) _].
  vm_compute in H. injection H as <- _.
  destruct Hiff as [Hiff _]. apply (Hiff eq_refl). reflexivity.
Qed.

(** C8, as amended.  On live handles, Has and Delete by name, by symbol
    and by index make exactly one boundary call and always return a
    boolean, with no error result: true exactly when the engine's answer to
    that call (HasProperty for Has, the outcome of the deletion for Delete)
    is nonzero, the world being left as that call left it.  A name reaches
    the engine as the C string it is marshalled to, that is, as its prefix
    before the first NUL byte.  A nil symbol pointer panics before any
    boundary call. *)
Theorem C8_Has_Delete_return_engine_answer
        {E : Type} (eng : Boundary E) (o : Object) (key : string) (sym : Symbol)
        (idx : Z) (w : World E) :
  returns_answer (Object_Has eng o key) w
                 (ObjectHas E eng (optr o) (c_str key) (engine w))
                 (CallObjectHas (optr o) (c_str key)) /\
  returns_answer (Object_HasSymbol eng o sym) w
                 (ObjectHasAnyKey E eng (optr o) (sptr sym) (engine w))
                 (CallObjectHasAnyKey (optr o) (sptr sym)) /\
  returns_answer (Object_HasIdx eng o idx) w
                 (ObjectHasIdx E eng (optr o) (C_uint32_t idx) (engine w))
                 (CallObjectHasIdx (optr o) (C_uint32_t idx)) /\
  returns_answer (Object_Delete eng o key) w
                 (ObjectDelete E eng (optr o) (c_str key) (engine w))
                 (CallObjectDelete (optr o) (c_str key)) /\
  returns_answer (Object_DeleteSymbol eng o sym) w
                 (ObjectDeleteAnyKey E eng (optr o) (sptr sym) (engine w))
                 (CallObjectDeleteAnyKey (optr o) (sptr sym)) /\
  returns_answer (Object_DeleteIdx eng o idx) w
                 (ObjectDeleteIdx E eng (optr o) (C_uint32_t idx) (engine w))
                 (CallObjectDeleteIdx (optr o) (C_uint32_t idx)) /\
  Object_HasSymbol_at eng o (Some sym) w = Object_HasSymbol eng o sym w /\
  Object_DeleteSymbol_at eng o (Some sym) w = Object_DeleteSymbol eng o sym w /\
  Object_HasSymbol_at eng o None w = (Panic NilDereference, w) /\
  Object_DeleteSymbol_at eng o None w = (Panic NilDereference, w).
Proof.
  unfold returns_answer.
  repeat split; try reflexivity.
  - rewrite Object_Has_run. cbv zeta. eexists. split; [reflexivity|].
    apply nonzero_spec.
  - go_unfold. destruct (ObjectHasAnyKey E eng _ _ _) as [r e'].
    eexists. split; [reflexivity|]. apply nonzero_spec.
  - go_unfold. destruct (ObjectHasIdx E eng _ _ _) as [r e'].
    eexists. split; [reflexivity|]. apply nonzero_spec.
  - rewrite Object_Delete_run. cbv zeta. eexists. split; [reflexivity|].
    apply nonzero_spec.
  - go_unfold. destruct (ObjectDeleteAnyKey E eng _ _ _) as [r e'].
    eexists. split; [reflexivity|]. apply nonzero_spec.
  - go_unfold. destruct (ObjectDeleteIdx E eng _ _ _) as [r e'].
    eexists. split; [reflexivity|]. apply nonzero_spec.
Qed.

(** ** The transient key buffer *)

(** C9.  Get, Set, Has, Delete and MethodCall by name leave the C heap as
    they found it, whichever way they exit (a Value, an error, a panic):
    the buffer that held the marshalled key has been released and nothing
    else was allocated. *)
Theorem C9_key_buffer_released
        {E : Type} (eng : Boundary E) (o : Object) (key : string) (val : GoVal)
        (args : list AnyValuer) (w : World E) :
  cheap (snd (Object_Get eng o key w)) = cheap w /\
  cheap (snd (Object_Set eng o key val w)) = cheap w /\
  cheap (snd (Object_Has eng o key w)) = cheap w /\
  cheap (snd (Object_Delete eng o key w)) = cheap w /\
  cheap (snd (Object_MethodCall eng o key args w)) = cheap w.
Proof.
  repeat split.
  - rewrite Object_Get_run. reflexivity.
  - rewrite Object_Set_coerced.
    destruct (octx o) as [c|] eqn:Hc.
    2:{ now rewrite (coerced_no_ctx eng o val _ w Hc). }
    destruct (coerceValue_total eng (iso c) val w) as (v & oe & w1 & l & Hco & Hh & _).
    destruct oe as [e|].
    + now rewrite (coerced_error eng o c val _ w w1 v e Hc Hco).
    + rewrite (coerced_ok eng o c val _ w w1 v Hc Hco).
      destruct v as [v|].
      * rewrite store_name_run. exact Hh.
      * rewrite store_name_nil. exact Hh.
  - rewrite Object_Has_run. reflexivity.
  - rewrite Object_Delete_run. reflexivity.
  - rewrite Object_MethodCall_run. cbv zeta.
    destruct (valueResult (octx o) _) as [[p|] [e|]]; try reflexivity.
    destruct (ValueIsFunction E eng (ptr p) _); [|reflexivity].
    rewrite Function_Call_heap. reflexivity.
Qed.

(** ** Contexts of the handles read *)

Lemma valueResult_ctx (c : option Context) (rtn : RtnValue) (v : Value)
      (err : option error) :
  valueResult c rtn = (Some v, err) -> ctx v = c.
Proof.
  unfold valueResult. destruct (rtn_value rtn =? 0)%N; intros H.
  - discriminate H.
  - injection H as <- _. reflexivity.
Qed.

(** C10.  A Value returned by Get, GetSymbol, GetIdx or GetInternalField,
    and the Object returned by GetPrototype, carries the context of the
    receiver. *)
Theorem C10_reads_keep_context
        {E : Type} (eng : Boundary E) (o : Object) (key : string) (sym : Symbol)
        (idx : Z) (w : World E) :
  (forall v err w', Object_Get eng o key w = (Ret (Some v, err), w') -> ctx v = octx o) /\
  (forall v err w',
      Object_GetSymbol eng o sym w = (Ret (Some v, err), w') -> ctx v = octx o) /\
  (forall v err w', Object_GetIdx eng o idx w = (Ret (Some v, err), w') -> ctx v = octx o) /\
  (forall v w', Object_GetInternalField eng o idx w = (Ret v, w') -> ctx v = octx o) /\
  (forall p w', Object_GetPrototype eng o w = (Ret p, w') -> octx p = octx o).
Proof.
  repeat split.
  - intros v err w'. rewrite Object_Get_run. cbv zeta. intros H.
    injection H as H _. exact (valueResult_ctx _ _ _ _ H).
  - intros v err w'. go_unfold.
    destruct (ObjectGetAnyKey E eng _ _ _) as [rtn e']. intros H.
    injection H as H _. exact (valueResult_ctx _ _ _ _ H).
  - intros v err w'. go_unfold.
    destruct (ObjectGetIdx E eng _ _ _) as [rtn e']. intros H.
    injection H as H _. exact (valueResult_ctx _ _ _ _ H).
  - intros v w'. go_unfold.
    destruct (ObjectGetInternalField E eng _ _ _) as [rtn e'].
    destruct (rtn_value rtn =? 0)%N; intros H; [discriminate H|].
    injection H as <- _. reflexivity.
  - intros p w'. go_unfold.
    destruct (ObjectGetPrototype E eng _ _) as [rtn e']. intros H.
    injection H as <- _. reflexivity.
Qed.

Lemma C10_reads_keep_context_witness :
  ctx (mkValue 4 (Some Toy.ctx0)) = octx (Toy.obj 2) /\
  ctx (mkValue 1 (Some Toy.ctx0)) = octx (Toy.obj 2) /\
  octx (mkObject (mkValue 5 (Some Toy.ctx0))) = octx (Toy.obj 2).
Proof.
  pose proof (C10_reads_keep_context Toy.eng (Toy.obj 2) "n" (mkSymbol (mkValue 4 None))
                                     1 Toy.w0) as (HGet & _ & _ & HField & HProto).
  split; [|split].
  - apply (HGet (mkValue 4 (Some Toy.ctx0)) None
                (after_call Toy.w0 Toy.h0 (CallObjectGet 2 "n"))).
    vm_compute. reflexivity.
  - apply (HField (mkValue 1 (Some Toy.ctx0))
                  (after_call Toy.w0 Toy.h0 (CallObjectGetInternalField 2 1))).
    vm_compute. reflexivity.
  - apply (HProto (mkObject (mkValue 5 (Some Toy.ctx0)))
                  (after_call Toy.w0 Toy.h0 (CallObjectGetPrototype 2))).
    vm_compute. reflexivity.
Defined.

(** ** The binding on the small engine *)

Section Session.

Import Toy.

Local Open Scope go_scope.

(** Has, Set and Delete by name and by a sparse index. *)
Example Has_Set_Delete_by_name :
  fst ((b0 <- Object_Has eng (obj 2) "k" ;;
        Object_Set eng (obj 2) "k" (GBool true) ;;;
        b1 <- Object_Has eng (obj 2) "k" ;;
        d1 <- Object_Delete eng (obj 2) "k" ;;
        b2 <- Object_Has eng (obj 2) "k" ;;
        d2 <- Object_Delete eng (obj 2) "k" ;;
        ret [b0; b1; d1; b2; d2]) w0)
  = Ret [false; true; true; false; false].
Proof. vm_compute. reflexivity. Qed.

Example Has_Set_Delete_by_index :
  fst ((b0 <- Object_HasIdx eng (obj 2) 1000 ;;
        Object_SetIdx eng (obj 2) 1000 (GString "x") ;;;
        b1 <- Object_HasIdx eng (obj 2) 1000 ;;
        d1 <- Object_DeleteIdx eng (obj 2) 1000 ;;
        b2 <- Object_HasIdx eng (obj 2) 1000 ;;
        ret [b0; b1; d1; b2]) w0)
  = Ret [false; true; true; false].
Proof. vm_compute. reflexivity. Qed.

(** A wrapped value is stored as it is and read back. *)
Example Set_then_Get_wrapped :
  fst ((Object_Set eng (obj 2) "self" (GValuer Valuer_Object (obj 5)) ;;;
        Object_Get eng (obj 2) "self") w0)
  = Ret (Some (mkValue 5 (Some ctx0)), None).
Proof. vm_compute. reflexivity. Qed.

(** Has sees the prototype chain; an absent property reads as undefined. *)
Example Has_inherited :
  fst (Object_Has eng (obj 2) "inherited" w0) = Ret true.
Proof. vm_compute. reflexivity. Qed.

Example Get_absent :
  fst (Object_Get eng (obj 2) "nope" w0) = Ret (Some (mkValue undefined (Some ctx0)), None).
Proof. vm_compute. reflexivity. Qed.

(** The engine reads a name up to its first NUL. *)
Example Has_name_with_NUL :
  fst (Object_Has eng (obj 2) ("n" ++ String NUL "x") w0) = Ret true.
Proof. vm_compute. reflexivity. Qed.

(** Internal fields: in range, the value is stored and read back; out of
    range, also through the wrap of [C.int], both accessors panic. *)
Example SetInternalField_then_Get :
  fst ((Object_SetInternalField eng (obj 2) 1 (GValuer Valuer_Object (obj 5)) ;;;
        Object_GetInternalField eng (obj 2) 1) w0)
  = Ret (mkValue 5 (Some ctx0)).
Proof. vm_compute. reflexivity. Qed.

Example SetInternalField_wrapped_index :
  fst (Object_SetInternalField eng (obj 2) 4294967295 (GBool true) w0)
  = Panic (PanicError (errorString "index out of range [4294967295] with length 2")).
Proof. vm_compute. reflexivity. Qed.

Example GetInternalField_out_of_range :
  fst (Object_GetInternalField eng (obj 2) 2 w0)
  = Panic (PanicError (JSError "RangeError: internal field out of bounds")).
Proof. vm_compute. reflexivity. Qed.

(** A missing method reads as undefined, which is not callable; a
    throwing one gives its error. *)
Example MethodCall_absent :
  fst (Object_MethodCall eng (obj 2) "nope" [] w0) = Ret (None, Some NotAFunction).
Proof. vm_compute. reflexivity. Qed.

Example MethodCall_throws :
  fst (Object_MethodCall eng (obj 2) "boom" [] w0)
  = Ret (None, Some (JSError "Error: boom")).
Proof. vm_compute. reflexivity. Qed.

(** When [NewValue] hands back nil and an error (here: a nil isolate),
    [coerceValue] returns nil and no error, and the setter panics on
    [value.ptr] with the key buffer released. *)
Example Set_after_failed_NewValue :
  Object_Set eng (mkObject (mkValue 2 (Some (mkContext 1 0)))) "k" (GInt32 5) w0
  = (Panic NilDereference, mkWorld h0 [] [CallNewValue 0 (GInt32 5)]).
Proof. vm_compute. reflexivity. Qed.

(** GetPrototype after SetPrototype. *)
Example SetPrototype_then_GetPrototype :
  fst ((Object_SetPrototype eng (obj 2) (obj 6) ;;;
        Object_GetPrototype eng (obj 2)) w0)
  = Ret (obj 6).
Proof. vm_compute. reflexivity. Qed.

End Session.

(** * Further properties of object.go *)

Lemma c_str_idempotent (s : string) : c_str (c_str s) = c_str s.
Proof.
  induction s as [|c s IH]; [reflexivity|].
  unfold c_str; fold c_str.
  destruct (Ascii.eqb c NUL) eqn:Hc; [reflexivity|].
  unfold c_str; fold c_str. rewrite Hc, IH. reflexivity.
Qed.

Lemma bind_run {E A B : Type} (m : M E A) (k : A -> M E B) (w w1 : World E) (a : A) :
  m w = (Ret a, w1) -> bind m k w = k a w1.
Proof. intros H. unfold bind. rewrite H. reflexivity. Qed.

Section Names.

Context {E : Type} (eng : Boundary E).

Lemma store_name_prefix (o : Object) (key : string) (v : option Value) (w : World E) :
  store_name eng o key v w = store_name eng o (c_str key) v w.
Proof.
  destruct v as [v|].
  - rewrite !store_name_run, c_str_idempotent. reflexivity.
  - rewrite !store_name_nil. reflexivity.
Qed.

Lemma Object_Set_prefix (o : Object) (key : string) (val : GoVal) (w : World E) :
  Object_Set eng o key val w = Object_Set eng o (c_str key) val w.
Proof.
  rewrite !Object_Set_coerced.
  destruct (octx o) as [c|] eqn:Hc.
  2:{ now rewrite !(coerced_no_ctx eng o val _ w Hc). }
  destruct (coerceValue_total eng (iso c) val w) as (v & oe & w1 & l & Hco & _).
  destruct oe as [e|].
  - now rewrite !(coerced_error eng o c val _ w w1 v e Hc Hco).
  - rewrite !(coerced_ok eng o c val _ w w1 v Hc Hco). apply store_name_prefix.
Qed.

End Names.

(** X1.  The five operations keyed by name see the key only as the C string
    it is marshalled to: a key and its prefix before the first NUL byte
    give the same result and the same world. *)
Theorem X1_name_is_read_as_C_string
        {E : Type} (eng : Boundary E) (o : Object) (key : string) (val : GoVal)
        (args : list AnyValuer) (w : World E) :
  Object_Get eng o key w = Object_Get eng o (c_str key) w /\
  Object_Set eng o key val w = Object_Set eng o (c_str key) val w /\
  Object_Has eng o key w = Object_Has eng o (c_str key) w /\
  Object_Delete eng o key w = Object_Delete eng o (c_str key) w /\
  Object_MethodCall eng o key args w = Object_MethodCall eng o (c_str key) args w.
Proof.
  repeat split.
  - now rewrite !Object_Get_run, c_str_idempotent.
  - apply Object_Set_prefix.
  - now rewrite !Object_Has_run, c_str_idempotent.
  - now rewrite !Object_Delete_run, c_str_idempotent.
  - now rewrite !Object_MethodCall_run, c_str_idempotent.
Qed.

(** X2.  coerceValue always returns, and it returns an error exactly for
    the inputs that are neither a supported primitive nor a Valuer; with
    the error comes a nil Value and an untouched world. *)
Theorem X2_coercion_errs_exactly_on_unsupported
        {E : Type} (eng : Boundary E) (i : Isolate) (val : GoVal) (w : World E) :
  exists v oe w1,
    coerceValue eng i val w = (Ret (v, oe), w1) /\
    (oe <> None <-> is_primitive val = false /\ is_valuer val = false) /\
    (oe <> None -> v = None /\ w1 = w /\ oe = Some (unsupported (typeName val))).
Proof.
  destruct (coerceValue_total eng i val w) as (v & oe & w1 & l & Hco & _).
  exists v, oe, w1. split; [exact Hco|].
  destruct oe as [e|].
  - destruct (coerceValue_error eng i val w w1 v e Hco) as (-> & -> & -> & Hp & Hv).
    repeat split; auto; congruence.
  - split.
    + split; [congruence|]. intros [Hp Hv].
      rewrite (coerceValue_unsupported eng i val w Hp Hv) in Hco. discriminate Hco.
    + congruence.
Qed.

(** X3.  Whatever setter is called and whatever the engine does, an error
    that comes back is the unsupported-type error for the input's dynamic
    type; in particular no setter ever returns an engine error. *)
Theorem X3_setter_error_is_unsupported_type
        {E : Type} (eng : Boundary E) (o : Object) (val : GoVal)
        (m : M E (option error)) (w w' : World E) (e : error) :
  setter eng o val m ->
  m w = (Ret (Some e), w') ->
  e = unsupported (typeName val) /\
  is_primitive val = false /\ is_valuer val = false /\ w' = w.
Proof.
  intros Hm H.
  destruct (setter_store eng o val m Hm) as (k & Hk & ->).
  destruct (octx o) as [c|] eqn:Hc.
  2:{ rewrite (coerced_no_ctx eng o val k w Hc) in H. discriminate H. }
  destruct (coerceValue_total eng (iso c) val w) as (v & oe & w1 & l & Hco & _).
  destruct oe as [e0|].
  - rewrite (coerced_error eng o c val k w w1 v e0 Hc Hco) in H.
    injection H as <- <-.
    destruct (coerceValue_error eng (iso c) val w w1 v e0 Hco) as (-> & _ & -> & Hp & Hv).
    auto.
  - rewrite (coerced_ok eng o c val k w w1 v Hc Hco) in H.
    destruct v as [v|].
    + destruct Hk.
      * rewrite store_name_run in H. discriminate H.
      * rewrite store_symbol_run in H. discriminate H.
      * rewrite store_idx_run in H. discriminate H.
      * rewrite store_field_run in H. cbv zeta in H.
        destruct (fst _ =? 0) in H; discriminate H.
    + rewrite (store_nil eng o k w1 Hk) in H. discriminate H.
Qed.

Lemma X3_setter_error_is_unsupported_type_witness :
  unsupported "[]string" = unsupported (typeName (GOther "[]string")) /\
  is_primitive (GOther "[]string") = false /\
  is_valuer (GOther "[]string") = false /\ Toy.w0 = Toy.w0.
Proof.
  apply (X3_setter_error_is_unsupported_type
           Toy.eng (Toy.obj 2) (GOther "[]string")
           (Object_SetIdx Toy.eng (Toy.obj 2) 0 (GOther "[]string"))
           Toy.w0 Toy.w0 (unsupported "[]string")).
  - apply setter_SetIdx.
  - reflexivity.
Defined.

(** X4.  Setting an input that is already a Value-producing type stores
    that very pointer: Set, SetSymbol and SetIdx make the one boundary set
    call and nothing else (NewValue is not called), and return nil. *)
Theorem X4_wrapped_input_is_stored_as_is
        {E : Type} (eng : Boundary E) (o : Object) (c : Context)
        {T : Type} (inst : Valuer T) (x : T) (v : Value)
        (key : string) (sym : Symbol) (idx : Z) (w : World E) :
  octx o = Some c ->
  value x = Some v ->
  (let r := ObjectSet E eng (optr o) (c_str key) (ptr v) (engine w) in
   Object_Set eng o key (GValuer inst x) w
   = (Ret None, after_call w (snd r) (CallObjectSet (optr o) (c_str key) (ptr v) (fst r))))
  /\
  (let r := ObjectSetAnyKey E eng (optr o) (sptr sym) (ptr v) (engine w) in
   Object_SetSymbol eng o sym (GValuer inst x) w
   = (Ret None,
      after_call w (snd r) (CallObjectSetAnyKey (optr o) (sptr sym) (ptr v) (fst r))))
  /\
  (let r := ObjectSetIdx E eng (optr o) (C_uint32_t idx) (ptr v) (engine w) in
   Object_SetIdx eng o idx (GValuer inst x) w
   = (Ret None,
      after_call w (snd r)
                 (CallObjectSetIdx (optr o) (C_uint32_t idx) (ptr v) (fst r)))).
Proof.
  intros Hc Hx.
  assert (Hco : coerceValue eng (iso c) (GValuer inst x) w = (Ret (Some v, None), w)).
  { rewrite coerceValue_valuer, Hx. reflexivity. }
  repeat split; cbv zeta.
  - rewrite Object_Set_coerced, (coerced_ok eng o c _ _ w w (Some v) Hc Hco).
    apply store_name_run.
  - rewrite Object_SetSymbol_coerced, (coerced_ok eng o c _ _ w w (Some v) Hc Hco).
    apply store_symbol_run.
  - rewrite Object_SetIdx_coerced, (coerced_ok eng o c _ _ w w (Some v) Hc Hco).
    apply store_idx_run.
Qed.

Lemma X4_wrapped_input_is_stored_as_is_witness :
  Object_Set Toy.eng (Toy.obj 2) "p" (GValuer Valuer_Object (Toy.obj 5)) Toy.w0
  = (Ret None,
     after_call Toy.w0
       (snd (ObjectSet _ Toy.eng 2 "p" 5 Toy.h0))
       (CallObjectSet 2 "p" 5 true)).
Proof.
  apply (proj1 (X4_wrapped_input_is_stored_as_is
                  Toy.eng (Toy.obj 2) Toy.ctx0 Valuer_Object (Toy.obj 5)
                  (mkValue 5 (Some Toy.ctx0)) "p" (mkSymbol (mkValue 4 None)) 0 Toy.w0
                  eq_refl eq_refl)).
Defined.

(** X5.  When NewValue hands back a nil Value for a primitive input, its
    error is lost: every setter panics on the nil dereference, no set call
    reaches the engine, and the C heap is as before. *)
Theorem X5_failed_NewValue_panics_in_setters
        {E : Type} (eng : Boundary E) (o : Object) (c : Context) (val : GoVal)
        (m : M E (option error)) (w : World E) :
  setter eng o val m ->
  octx o = Some c ->
  is_primitive val = true ->
  fst (fst (NewValue E eng (iso c) val (engine w))) = None ->
  m w = (Panic NilDereference,
         after_call w (snd (NewValue E eng (iso c) val (engine w)))
                    (CallNewValue (iso c) val)).
Proof.
  intros Hm Hc Hp Hnil.
  destruct (setter_store eng o val m Hm) as (k & Hk & ->).
  pose proof (coerceValue_primitive eng (iso c) val w Hp) as Hco.
  cbv zeta in Hco. rewrite Hnil in Hco.
  rewrite (coerced_ok eng o c val k w _ None Hc Hco).
  apply (store_nil eng o k _ Hk).
Qed.

Lemma X5_failed_NewValue_panics_in_setters_witness :
  Object_SetSymbol Toy.eng (mkObject (mkValue 2 (Some (mkContext 1 0))))
                   (mkSymbol (mkValue 4 None)) (GUint64 9) Toy.w0
  = (Panic NilDereference, mkWorld Toy.h0 [] [CallNewValue 0 (GUint64 9)]).
Proof.
  apply (X5_failed_NewValue_panics_in_setters
           Toy.eng (mkObject (mkValue 2 (Some (mkContext 1 0)))) (mkContext 1 0)
           (GUint64 9) _ Toy.w0
           (setter_SetSymbol Toy.eng _ (GUint64 9) (mkSymbol (mkValue 4 None)))
           eq_refl eq_refl eq_refl).
Defined.

(** X6.  A setter reads [o.ctx.iso] before it looks at the input: on a
    receiver without context every setter panics and the world is
    untouched, for any input.  With a context, a Valuer whose value() is
    nil panics in the same way, before any boundary call. *)
Theorem X6_setters_on_nil_pointers
        {E : Type} (eng : Boundary E) (o : Object) (val : GoVal)
        (m : M E (option error)) (w : World E) :
  setter eng o val m ->
  (octx o = None -> m w = (Panic NilDereference, w)) /\
  (forall c T (inst : Valuer T) (x : T),
      octx o = Some c -> val = GValuer inst x -> value x = None ->
      m w = (Panic NilDereference, w)).
Proof.
  intros Hm.
  destruct (setter_store eng o val m Hm) as (k & Hk & ->).
  split.
  - intros Hc. apply (coerced_no_ctx eng o val k w Hc).
  - intros c T inst x Hc -> Hx.
    assert (Hco : coerceValue eng (iso c) (GValuer inst x) w = (Ret (None, None), w)).
    { rewrite coerceValue_valuer, Hx. reflexivity. }
    rewrite (coerced_ok eng o c _ k w w None Hc Hco).
    apply (store_nil eng o k w Hk).
Qed.

Lemma X6_setters_on_nil_pointers_witness :
  Object_Set Toy.eng (mkObject (mkValue 2 None)) "k" (GOther "chan int") Toy.w0
  = (Panic NilDereference, Toy.w0)
  /\
  Object_SetInternalField Toy.eng (Toy.obj 2) 0 (GValuer Valuer_Value None) Toy.w0
  = (Panic NilDereference, Toy.w0).
Proof.
  split.
  - apply (proj1 (X6_setters_on_nil_pointers
                    Toy.eng (mkObject (mkValue 2 None)) (GOther "chan int") _ Toy.w0
                    (setter_Set Toy.eng _ _ "k"))).
    reflexivity.
  - apply (proj2 (X6_setters_on_nil_pointers
                    Toy.eng (Toy.obj 2) (GValuer Valuer_Value None) _ Toy.w0
                    (setter_SetInternalField Toy.eng _ _ 0))
                 Toy.ctx0 (option Value) Valuer_Value None); reflexivity.
Defined.

(** X7.  SetSymbol and SetIdx after a successful coercion: one boundary
    set call with the symbol's pointer, or the index as a uint32, and the
    coerced pointer; the result is nil whatever the engine made of the
    store. *)
Theorem X7_SetSymbol_SetIdx_return_nil
        {E : Type} (eng : Boundary E) (o : Object) (c : Context) (val : GoVal)
        (sym : Symbol) (idx : Z) (w w1 : World E) (v : Value) :
  octx o = Some c ->
  coerceValue eng (iso c) val w = (Ret (Some v, None), w1) ->
  (let r := ObjectSetAnyKey E eng (optr o) (sptr sym) (ptr v) (engine w1) in
   Object_SetSymbol eng o sym val w
   = (Ret None,
      after_call w1 (snd r) (CallObjectSetAnyKey (optr o) (sptr sym) (ptr v) (fst r))))
  /\
  (let r := ObjectSetIdx E eng (optr o) (C_uint32_t idx) (ptr v) (engine w1) in
   Object_SetIdx eng o idx val w
   = (Ret None,
      after_call w1 (snd r)
                 (CallObjectSetIdx (optr o) (C_uint32_t idx) (ptr v) (fst r)))).
Proof.
  intros Hc Hco. split; cbv zeta.
  - rewrite Object_SetSymbol_coerced, (coerced_ok eng o c val _ w w1 (Some v) Hc Hco).
    apply store_symbol_run.
  - rewrite Object_SetIdx_coerced, (coerced_ok eng o c val _ w w1 (Some v) Hc Hco).
    apply store_idx_run.
Qed.

Lemma X7_SetSymbol_SetIdx_return_nil_witness :
  Object_SetIdx Toy.eng (Toy.obj 6) 3 (GInt32 5) Toy.w0
  = (Ret None,
     mkWorld (Toy.h0 ++ [(9%N, Toy.Prim "int32")])%list []
             [CallNewValue 7 (GInt32 5); CallObjectSetIdx 6 3 9 false]).
Proof.
  apply (proj2 (X7_SetSymbol_SetIdx_return_nil
                  Toy.eng (Toy.obj 6) Toy.ctx0 (GInt32 5) (mkSymbol (mkValue 4 None)) 3
                  Toy.w0
                  (mkWorld (Toy.h0 ++ [(9%N, Toy.Prim "int32")])%list []
                           [CallNewValue 7 (GInt32 5)])
                  (mkValue 9 None) eq_refl ltac:(vm_compute; reflexivity))).
Defined.

(** X8.  SetInternalField after a successful coercion makes the one store
    call, with the index converted to a C int.  If the engine reports the
    slot set, the result is nil and the count is never asked for; if not,
    the count is read from the engine and the panic message carries the
    index as given and that count. *)
Theorem X8_SetInternalField_paths
        {E : Type} (eng : Boundary E) (o : Object) (c : Context) (val : GoVal)
        (idx : Z) (w w1 : World E) (v : Value) :
  octx o = Some c ->
  coerceValue eng (iso c) val w = (Ret (Some v, None), w1) ->
  let r := ObjectSetInternalField E eng (optr o) (C_int idx) (ptr v) (engine w1) in
  let w2 := after_call w1 (snd r) (CallObjectSetInternalField (optr o) (C_int idx) (ptr v)) in
  (fst r <> 0 -> Object_SetInternalField eng o idx val w = (Ret None, w2))
  /\
  (fst r = 0 ->
   let n := ObjectInternalFieldCount E eng (optr o) (snd r) in
   Object_SetInternalField eng o idx val w
   = (Panic (PanicError
               (errorString ("index out of range [" ++ fmt_uint idx ++ "] with length "
                             ++ fmt_uint (uint32_wrap (fst n))))),
      after_call w2 (snd n) (CallObjectInternalFieldCount (optr o)))).
Proof.
  intros Hc Hco. cbv zeta.
  rewrite Object_SetInternalField_coerced,
    (coerced_ok eng o c val _ w w1 (Some v) Hc Hco), store_field_run.
  cbv zeta. split; intros Hr.
  - destruct (Z.eqb_spec (fst (ObjectSetInternalField E eng (optr o) (C_int idx)
                                                      (ptr v) (engine w1))) 0);
      [contradiction|reflexivity].
  - rewrite Hr. reflexivity.
Qed.

Lemma X8_SetInternalField_paths_witness :
  Object_SetInternalField Toy.eng (Toy.obj 2) 0 (GValuer Valuer_Object (Toy.obj 5)) Toy.w0
  = (Ret None,
     after_call Toy.w0 (snd (Toy.set_field 2 0 5 Toy.h0))
                (CallObjectSetInternalField 2 0 5))
  /\
  Object_SetInternalField Toy.eng (Toy.obj 5) 0 (GValuer Valuer_Object (Toy.obj 2)) Toy.w0
  = (Panic (PanicError (errorString "index out of range [0] with length 0")),
     mkWorld Toy.h0 [] [CallObjectSetInternalField 5 0 2; CallObjectInternalFieldCount 5]).
Proof.
  split.
  - apply (proj1 (X8_SetInternalField_paths
                    Toy.eng (Toy.obj 2) Toy.ctx0 (GValuer Valuer_Object (Toy.obj 5)) 0
                    Toy.w0 Toy.w0 (mkValue 5 (Some Toy.ctx0)) eq_refl eq_refl)).
    vm_compute. discriminate.
  - apply (proj2 (X8_SetInternalField_paths
                    Toy.eng (Toy.obj 5) Toy.ctx0 (GValuer Valuer_Object (Toy.obj 2)) 0
                    Toy.w0 Toy.w0 (mkValue 2 (Some Toy.ctx0)) eq_refl eq_refl)).
    reflexivity.
Defined.

(** X9.  InternalFieldCount always returns, after one boundary call, a
    number in the uint32 range: the engine's count itself when that is not
    negative, and the count plus 2^32 for a negative C int. *)
Theorem X9_InternalFieldCount_is_count_as_uint32
        {E : Type} (eng : Boundary E) (o : Object) (w : World E) :
  let r := ObjectInternalFieldCount E eng (optr o) (engine w) in
  exists n,
    Object_InternalFieldCount eng o w
    = (Ret n, after_call w (snd r) (CallObjectInternalFieldCount (optr o))) /\
    0 <= n < 2 ^ 32 /\
    (0 <= fst r < 2 ^ 32 -> n = fst r) /\
    (- 2 ^ 31 <= fst r < 0 -> n = fst r + 2 ^ 32).
Proof.
  cbv zeta. go_unfold.
  destruct (ObjectInternalFieldCount E eng (optr o) (engine w)) as [k e'].
  cbn [fst snd]. exists (uint32_wrap k).
  split; [reflexivity|]. unfold uint32_wrap. repeat split.
  - apply Z.mod_pos_bound. lia.
  - apply Z.mod_pos_bound. lia.
  - intros H. apply Z.mod_small. exact H.
  - intros H. symmetry. apply (Z.mod_unique k (2 ^ 32) (-1)); lia.
Qed.

(** X10.  GetInternalField returns exactly when the engine hands back a
    non-null pointer, and then the Value holds that pointer: a Value out of
    GetInternalField never has a null pointer.  On a null pointer it
    panics with the error built from the engine's error field. *)
Theorem X10_GetInternalField_value_or_panic
        {E : Type} (eng : Boundary E) (o : Object) (idx : Z) (w : World E) :
  let r := ObjectGetInternalField E eng (optr o) (C_int idx) (engine w) in
  let w' := after_call w (snd r) (CallObjectGetInternalField (optr o) (C_int idx)) in
  (rtn_value (fst r) <> 0%N ->
   Object_GetInternalField eng o idx w
   = (Ret (mkValue (rtn_value (fst r)) (octx o)), w'))
  /\
  (rtn_value (fst r) = 0%N ->
   Object_GetInternalField eng o idx w
   = (Panic (PanicError (newJSError (rtn_error (fst r)))), w'))
  /\
  (forall v w2, Object_GetInternalField eng o idx w = (Ret v, w2) -> ptr v <> 0%N).
Proof.
  cbv zeta. go_unfold.
  destruct (ObjectGetInternalField E eng (optr o) (C_int idx) (engine w)) as [rtn e'].
  cbn [fst snd].
  destruct (N.eqb_spec (rtn_value rtn) 0) as [Hz|Hnz]; repeat split.
  - intros H. contradiction.
  - intros v w2 H. discriminate H.
  - intros H. contradiction.
  - intros v w2 H. injection H as <- _. exact Hnz.
Qed.

Lemma X10_GetInternalField_value_or_panic_witness :
  Object_GetInternalField Toy.eng (Toy.obj 2) 1 Toy.w0
  = (Ret (mkValue 1 (Some Toy.ctx0)),
     after_call Toy.w0 Toy.h0 (CallObjectGetInternalField 2 1))
  /\
  Object_GetInternalField Toy.eng (Toy.obj 2) 4294967295 Toy.w0
  = (Panic (PanicError (JSError "RangeError: internal field out of bounds")),
     after_call Toy.w0 Toy.h0 (CallObjectGetInternalField 2 (-1))).
Proof.
  split.
  - apply (proj1 (X10_GetInternalField_value_or_panic Toy.eng (Toy.obj 2) 1 Toy.w0)).
    vm_compute. discriminate.
  - apply (proj1 (proj2 (X10_GetInternalField_value_or_panic
                           Toy.eng (Toy.obj 2) 4294967295 Toy.w0))).
    reflexivity.
Defined.

(** X11.  GetPrototype always returns an Object, whatever the engine hands
    back: there is no null test, so a null pointer from the engine comes
    out as an Object with a null pointer, and the engine's error field is
    not looked at. *)
Theorem X11_GetPrototype_always_returns
        {E : Type} (eng : Boundary E) (o : Object) (w : World E) :
  let r := ObjectGetPrototype E eng (optr o) (engine w) in
  exists p,
    Object_GetPrototype eng o w
    = (Ret p, after_call w (snd r) (CallObjectGetPrototype (optr o))) /\
    optr p = rtn_value (fst r) /\
    octx p = octx o /\
    (rtn_value (fst r) = 0%N -> optr p = 0%N).
Proof.
  cbv zeta. go_unfold.
  destruct (ObjectGetPrototype E eng (optr o) (engine w)) as [rtn e'].
  cbn [fst snd]. eexists. split; [reflexivity|]. auto.
Qed.

(** X12.  The index of an internal field crosses the boundary as a C int:
    the conversion stays in the int range, is negative exactly from 2^31
    on, converts back to the index, and sends different indices to
    different C ints. *)
Theorem X12_C_int_of_uint32 (a b : Z) :
  0 <= a < 2 ^ 32 -> 0 <= b < 2 ^ 32 ->
  - 2 ^ 31 <= C_int a < 2 ^ 31 /\
  (C_int a < 0 <-> 2 ^ 31 <= a) /\
  uint32_wrap (C_int a) = a /\
  (C_int a = C_int b -> a = b).
Proof.
  intros Ha Hb.
  assert (Hcases : forall x, 0 <= x < 2 ^ 32 ->
            (x < 2 ^ 31 /\ C_int x = x) \/ (2 ^ 31 <= x /\ C_int x = x - 2 ^ 32)).
  { intros x Hx. destruct (Z.lt_ge_cases x (2 ^ 31)).
    - left. split; [assumption|]. apply C_int_small. lia.
    - right. split; [assumption|]. apply C_int_large. lia. }
  destruct (Hcases a Ha) as [[Hla Ea]|[Hla Ea]], (Hcases b Hb) as [[Hlb Eb]|[Hlb Eb]];
    rewrite Ea, ?Eb; unfold uint32_wrap; repeat split; try lia.
  all: try (apply Z.mod_small; lia).
  all: try (symmetry; apply (Z.mod_unique (a - 2 ^ 32) (2 ^ 32) (-1)); lia).
Qed.

Lemma X12_C_int_of_uint32_witness :
  - 2 ^ 31 <= C_int 4294967295 < 2 ^ 31 /\
  (C_int 4294967295 < 0 <-> 2 ^ 31 <= 4294967295) /\
  uint32_wrap (C_int 4294967295) = 4294967295 /\
  (C_int 4294967295 = C_int 7 -> 4294967295 = 7).
Proof.
  apply (X12_C_int_of_uint32 4294967295 7); lia.
Defined.

(** ** Writing and reading back *)

(** X13.  A setter followed by the getter of the same kind, after a
    successful coercion: the two boundary calls, the store and then the
    lookup, go to the same object pointer with the same key (for names,
    any name with the same C string), the lookup runs in the engine state
    the store left, and what Get returns is the wrapping of that answer
    with the receiver's context. *)
Theorem X13_setter_then_getter
        {E : Type} (eng : Boundary E) (o : Object) (c : Context) (key key' : string)
        (sym : Symbol) (idx : Z) (val : GoVal) (w w1 : World E) (v : Value) :
  octx o = Some c ->
  coerceValue eng (iso c) val w = (Ret (Some v, None), w1) ->
  (c_str key' = c_str key ->
   let s := ObjectSet E eng (optr o) (c_str key) (ptr v) (engine w1) in
   let g := ObjectGet E eng (optr o) (c_str key) (snd s) in
   (Object_Set eng o key val ;;; Object_Get eng o key') w
   = (Ret (valueResult (octx o) (fst g)),
      after_call
        (after_call w1 (snd s) (CallObjectSet (optr o) (c_str key) (ptr v) (fst s)))
        (snd g) (CallObjectGet (optr o) (c_str key))))
  /\
  (let s := ObjectSetAnyKey E eng (optr o) (sptr sym) (ptr v) (engine w1) in
   let g := ObjectGetAnyKey E eng (optr o) (sptr sym) (snd s) in
   (Object_SetSymbol eng o sym val ;;; Object_GetSymbol eng o sym) w
   = (Ret (valueResult (octx o) (fst g)),
      after_call
        (after_call w1 (snd s) (CallObjectSetAnyKey (optr o) (sptr sym) (ptr v) (fst s)))
        (snd g) (CallObjectGetAnyKey (optr o) (sptr sym))))
  /\
  (let s := ObjectSetIdx E eng (optr o) (C_uint32_t idx) (ptr v) (engine w1) in
   let g := ObjectGetIdx E eng (optr o) (C_uint32_t idx) (snd s) in
   (Object_SetIdx eng o idx val ;;; Object_GetIdx eng o idx) w
   = (Ret (valueResult (octx o) (fst g)),
      after_call
        (after_call w1 (snd s)
           (CallObjectSetIdx (optr o) (C_uint32_t idx) (ptr v) (fst s)))
        (snd g) (CallObjectGetIdx (optr o) (C_uint32_t idx)))).
Proof.
  intros Hc Hco. repeat split; cbv zeta.
  - intros Hk. erewrite bind_run.
    2:{ rewrite Object_Set_coerced, (coerced_ok eng o c val _ w w1 (Some v) Hc Hco).
        apply store_name_run. }
    rewrite Object_Get_run, Hk. reflexivity.
  - erewrite bind_run.
    2:{ rewrite Object_SetSymbol_coerced, (coerced_ok eng o c val _ w w1 (Some v) Hc Hco).
        apply store_symbol_run. }
    go_unfold. cbn [fst snd engine cheap calls after_call].
    destruct (ObjectGetAnyKey E eng _ _ _) as [rtn e']. reflexivity.
  - erewrite bind_run.
    2:{ rewrite Object_SetIdx_coerced, (coerced_ok eng o c val _ w w1 (Some v) Hc Hco).
        apply store_idx_run. }
    go_unfold. cbn [fst snd engine cheap calls after_call].
    destruct (ObjectGetIdx E eng _ _ _) as [rtn e']. reflexivity.
Qed.

Lemma X13_setter_then_getter_witness :
  (Object_Set Toy.eng (Toy.obj 2) "k" (GString "v") ;;;
   Object_Get Toy.eng (Toy.obj 2) ("k" ++ String NUL "tail")) Toy.w0
  = (Ret (Some (mkValue 9 (Some Toy.ctx0)), None),
     mkWorld
       (snd (Toy.set (Toy.KName "k") 2 9 (Toy.h0 ++ [(9%N, Toy.Prim "string")])%list))
       []
       [CallNewValue 7 (GString "v"); CallObjectSet 2 "k" 9 true; CallObjectGet 2 "k"]).
Proof.
  apply (proj1 (X13_setter_then_getter
                  Toy.eng (Toy.obj 2) Toy.ctx0 "k" ("k" ++ String NUL "tail")
                  (mkSymbol (mkValue 4 None)) 0 (GString "v") Toy.w0
                  (mkWorld (Toy.h0 ++ [(9%N, Toy.Prim "string")])%list []
                           [CallNewValue 7 (GString "v")])
                  (mkValue 9 None) eq_refl
                  ltac:(vm_compute; reflexivity))).
  vm_compute. reflexivity.
Defined.

(** X14.  SetInternalField, then GetInternalField at the same index: both
    convert the index in the same way, so if the engine reports the slot
    set and gives the pointer back, GetInternalField returns a Value with
    that pointer and the receiver's context. *)
Theorem X14_SetInternalField_then_Get
        {E : Type} (eng : Boundary E) (o : Object) (c : Context) (idx : Z)
        (val : GoVal) (w w1 : World E) (v : Value) :
  octx o = Some c ->
  coerceValue eng (iso c) val w = (Ret (Some v, None), w1) ->
  ptr v <> 0%N ->
  let s := ObjectSetInternalField E eng (optr o) (C_int idx) (ptr v) (engine w1) in
  fst s <> 0 ->
  rtn_value (fst (ObjectGetInternalField E eng (optr o) (C_int idx) (snd s))) = ptr v ->
  fst ((Object_SetInternalField eng o idx val ;;; Object_GetInternalField eng o idx) w)
  = Ret (mkValue (ptr v) (octx o)).
Proof.
  intros Hc Hco Hv s Hins Hlaw. subst s.
  erewrite bind_run.
  2:{ rewrite Object_SetInternalField_coerced,
        (coerced_ok eng o c val _ w w1 (Some v) Hc Hco), store_field_run.
      cbv zeta.
      destruct (Z.eqb_spec (fst (ObjectSetInternalField E eng (optr o) (C_int idx)
                                                        (ptr v) (engine w1))) 0);
        [contradiction|reflexivity]. }
  go_unfold. cbn [fst snd engine after_call].
  destruct (ObjectGetInternalField E eng _ _ _) as [rtn e'].
  cbn [fst snd] in *. rewrite Hlaw.
  destruct (N.eqb_spec (ptr v) 0); [contradiction|reflexivity].
Qed.

Lemma X14_SetInternalField_then_Get_witness :
  fst ((Object_SetInternalField Toy.eng (Toy.obj 2) 1 (GBool true) ;;;
        Object_GetInternalField Toy.eng (Toy.obj 2) 1) Toy.w0)
  = Ret (mkValue 9 (Some Toy.ctx0)).
Proof.
  apply (X14_SetInternalField_then_Get
           Toy.eng (Toy.obj 2) Toy.ctx0 1 (GBool true) Toy.w0
           (mkWorld (Toy.h0 ++ [(9%N, Toy.Prim "bool")])%list []
                    [CallNewValue 7 (GBool true)])
           (mkValue 9 None) eq_refl).
  - vm_compute. reflexivity.
  - vm_compute. discriminate.
  - vm_compute. discriminate.
  - vm_compute. reflexivity.
Defined.

(** X15.  SetPrototype, then GetPrototype: SetPrototype makes the one
    boundary call with the two pointers and always returns; if the engine
    then reports the prototype it was given, GetPrototype returns an Object
    with the pointer of that prototype and the context of the receiver. *)
Theorem X15_SetPrototype_then_GetPrototype
        {E : Type} (eng : Boundary E) (o proto : Object) (w : World E) :
  let e1 := ObjectSetPrototype E eng (optr o) (optr proto) (engine w) in
  Object_SetPrototype eng o proto w
  = (Ret tt, after_call w e1 (CallObjectSetPrototype (optr o) (optr proto)))
  /\
  (rtn_value (fst (ObjectGetPrototype E eng (optr o) e1)) = optr proto ->
   fst ((Object_SetPrototype eng o proto ;;; Object_GetPrototype eng o) w)
   = Ret (mkObject (mkValue (optr proto) (octx o)))).
Proof.
  cbv zeta. split; [reflexivity|].
  intros Hlaw. go_unfold. cbn [fst snd engine].
  destruct (ObjectGetPrototype E eng _ _) as [rtn e'].
  cbn [fst snd] in *. rewrite Hlaw. reflexivity.
Qed.

Lemma X15_SetPrototype_then_GetPrototype_witness :
  fst ((Object_SetPrototype Toy.eng (Toy.obj 2) (mkObject (mkValue 6 None)) ;;;
        Object_GetPrototype Toy.eng (Toy.obj 2)) Toy.w0)
  = Ret (mkObject (mkValue 6 (Some Toy.ctx0))).
Proof.
  apply (proj2 (X15_SetPrototype_then_GetPrototype
                  Toy.eng (Toy.obj 2) (mkObject (mkValue 6 None)) Toy.w0)).
  reflexivity.
Defined.

(** ** What a setter asks of the engine *)

Section Budget.

Context {E : Type} (eng : Boundary E).

Lemma coerceValue_log (i : Isolate) (val : GoVal) (w : World E) :
  exists v oe w1 l,
    coerceValue eng i val w = (Ret (v, oe), w1) /\
    cheap w1 = cheap w /\
    calls w1 = (calls w ++ l)%list /\
    (l = [] \/ l = [CallNewValue i val]).
Proof.
  destruct (shape_cases val) as [Hp | [(T & inst & x & ->) | [Hp Hv]]].
  - rewrite (coerceValue_primitive eng i val w Hp). cbv zeta.
    do 3 eexists. exists [CallNewValue i val]. auto.
  - rewrite coerceValue_valuer. do 3 eexists. exists [].
    rewrite app_nil_r. auto.
  - rewrite (coerceValue_unsupported eng i val w Hp Hv). do 3 eexists. exists [].
    rewrite app_nil_r. auto.
Qed.

Lemma store_log (o : Object) (k : option Value -> M E (option error))
      (v : option Value) (w : World E) :
  store eng o k ->
  exists l,
    calls (snd (k v w)) = (calls w ++ l)%list /\
    cheap (snd (k v w)) = cheap w /\
    (List.length (filter is_set_call l) <= 1)%nat /\
    filter is_NewValue_call l = [].
Proof.
  intros Hk. destruct v as [v|].
  - destruct Hk.
    + rewrite store_name_run. cbv zeta. eexists. repeat split; simpl; auto.
    + rewrite store_symbol_run. cbv zeta. eexists. repeat split; simpl; auto.
    + rewrite store_idx_run. cbv zeta. eexists. repeat split; simpl; auto.
    + rewrite store_field_run. cbv zeta.
      destruct (fst _ =? 0); cbn [snd calls cheap after_call].
      * rewrite <- app_assoc. eexists. repeat split; simpl; auto.
      * eexists. repeat split; simpl; auto.
  - rewrite (store_nil eng o k w Hk). exists []. rewrite app_nil_r. simpl. auto.
Qed.

End Budget.

(** X16.  Whatever the setter, the input and the engine: the call makes at
    most one NewValue call and at most one boundary set call, and it
    leaves the C heap as it found it, also when it panics. *)
Theorem X16_setter_call_budget
        {E : Type} (eng : Boundary E) (o : Object) (val : GoVal)
        (m : M E (option error)) (w : World E) :
  setter eng o val m ->
  exists l,
    calls (snd (m w)) = (calls w ++ l)%list /\
    (List.length (filter is_NewValue_call l) <= 1)%nat /\
    (List.length (filter is_set_call l) <= 1)%nat /\
    cheap (snd (m w)) = cheap w.
Proof.
  intros Hm. destruct (setter_store eng o val m Hm) as (k & Hk & ->).
  destruct (octx o) as [c|] eqn:Hc.
  2:{ rewrite (coerced_no_ctx eng o val k w Hc). exists [].
      rewrite app_nil_r. simpl. auto. }
  destruct (coerceValue_log eng (iso c) val w)
    as (v & oe & w1 & l1 & Hco & Hh & Hl1 & Hshape).
  assert (Hn1 : (List.length (filter is_NewValue_call l1) <= 1)%nat)
    by (destruct Hshape as [-> | ->]; simpl; auto).
  assert (Hs1 : filter is_set_call l1 = [])
    by (destruct Hshape as [-> | ->]; reflexivity).
  destruct oe as [e|].
  - rewrite (coerced_error eng o c val k w w1 v e Hc Hco). cbn [snd].
    exists l1. rewrite Hs1. simpl. auto.
  - rewrite (coerced_ok eng o c val k w w1 v Hc Hco).
    destruct (store_log eng o k v w1 Hk) as (l2 & Hl2 & Hh2 & Hs2 & Hn2).
    exists (l1 ++ l2)%list.
    rewrite Hl2, Hl1, <- app_assoc, !filter_app, Hs1, Hn2, app_nil_r, Hh2.
    cbn [app]. auto.
Qed.

Lemma X16_setter_call_budget_witness :
  exists l,
    calls (snd (Object_SetInternalField Toy.eng (Toy.obj 2) 5 (GFloat64 0) Toy.w0))
    = (calls Toy.w0 ++ l)%list /\
    (List.length (filter is_NewValue_call l) <= 1)%nat /\
    (List.length (filter is_set_call l) <= 1)%nat /\
    cheap (snd (Object_SetInternalField Toy.eng (Toy.obj 2) 5 (GFloat64 0) Toy.w0))
    = cheap Toy.w0.
Proof.
  apply (X16_setter_call_budget Toy.eng (Toy.obj 2) (GFloat64 0) _ Toy.w0
                                (setter_SetInternalField Toy.eng _ _ 5)).
Defined.
